(** * kserve: OpenAI protocol model and its streaming adapter

    A verification development for
    [python/kserve/kserve/protocol/rest/openai/openai_model.py]:
    the class [AsyncMappingIterator] (a mapping, filtering, closing wrapper
    around an asynchronous iterator) and the constructor of [OpenAIModel].

    The Python code is embedded shallowly.  An awaited call is a state
    transformer over an explicit heap; a raised exception is the [Raise]
    outcome of a call; the one unbounded loop of the source,
    [while mapped_item is None], is run with fuel. *)

From stdpp Require Import base gmap strings list.
From Stdlib Require Import Lia.

Open Scope string_scope.
Open Scope list_scope.

(** ** Exceptions and call outcomes *)

(** The exception objects the code can tell apart.  The only test the source
    performs on an exception is [except Exception], so an exception is
    modelled by its position in the class hierarchy and by the identity of
    the object ([id]).  [StopAsyncIteration] is the end-of-sequence signal of
    the asynchronous iterator protocol; in Python it derives from
    [Exception].  [ExceptionObj] is an instance of any other subclass of
    [Exception], [StopIteration] apart, which a coroutine cannot let out
    (PEP 479 turns it into a [RuntimeError]).  [BaseExceptionObj] stands for
    the exceptions that derive from [BaseException] only
    ([asyncio.CancelledError], [KeyboardInterrupt], [GeneratorExit],
    [SystemExit]). *)
Inductive exn : Type :=
| StopAsyncIteration
| ExceptionObj (id : nat)
| BaseExceptionObj (id : nat).

(** [isinstance(e, Exception)]: what the clause [except Exception as e]
    tests. *)
Definition isinstance_Exception (e : exn) : bool :=
  match e with
  | StopAsyncIteration => true
  | ExceptionObj _ => true
  | BaseExceptionObj _ => false
  end.

(** The outcome of a call: it returns a value or raises. *)
Inductive result (A : Type) : Type :=
| Return (a : A)
| Raise (e : exn).
Arguments Return {A} a.
Arguments Raise {A} e.

(** ** AsyncMappingIterator *)

(** The adapter is generic in four types: [P], the states of the wrapped
    producer; [C], the states of whatever the close action acts on; [Raw],
    the items the producer returns; [Mapped], the values the mapper returns
    other than [None].  The producer and the close action are objects with a
    state of their own, which their calls update; the mapper is a function of
    the item.  One consumer pulls at a time, as the protocol of
    [__anext__] requires, so a run is a sequence of calls. *)

Section AsyncMappingIterator.
Context {P C Raw Mapped : Type}.

(** [close: Optional[Callable]].  The callable owns a state of type [C]
    (a connection, a generation context); invoking it steps that state and
    returns or raises.  [iscoroutinefunction] is the answer of
    [inspect.iscoroutinefunction(self.close)], which selects between
    [await self.close()] and [self.close()]; [call] is the effect of the
    form selected.  A callable is true in [if self.close:], [None] is
    false. *)
Record Callable : Type := {
  iscoroutinefunction : bool;
  call : C -> result unit * C
}.

(** The four attributes set by [__init__].  [iterator] is the method
    [self.iterator.__anext__] of the wrapped producer, a step function on
    the producer's own state [P]: it returns the next raw item or raises
    ([StopAsyncIteration] at the end).  [mapper] returns a mapped value,
    returns [None], or raises; a Python value that may be [None] is an
    [option]. *)
Record AsyncMappingIterator : Type := {
  iterator : P -> result Raw * P;
  mapper : Raw -> result (option Mapped);
  skip_none : bool;
  close : option Callable
}.

(** What an observer of the adapter sees, in order: a value handed to the
    caller of [__anext__], and an invocation of [self.close]. *)
Inductive event : Type :=
| EvItem (v : option Mapped)
| EvClose.

(** The mutable state reachable from the adapter: the producer, the state
    behind [close], and the log of observable events (instrumentation). *)
Record heap : Type := {
  it_st : P;
  cl_st : C;
  trace : list event
}.

(** A computation that may raise and that updates the heap. *)
Definition M (A : Type) : Type := heap -> result A * heap.

Definition ret {A : Type} (a : A) : M A := fun h => (Return a, h).

Definition raise {A : Type} (e : exn) : M A := fun h => (Raise e, h).

Definition bind {A B : Type} (m : M A) (k : A -> M B) : M B :=
  fun h =>
    match m h with
    | (Return a, h') => k a h'
    | (Raise e, h') => (Raise e, h')
    end.

(** [try: body / except Exception as e: handler e].  An exception outside
    the class [Exception] passes through the clause untouched. *)
Definition try_except_Exception {A : Type} (body : M A) (handler : exn -> M A) : M A :=
  fun h =>
    match body h with
    | (Return a, h') => (Return a, h')
    | (Raise e, h') =>
        if isinstance_Exception e then handler e h' else (Raise e, h')
    end.

(** [await m]: with a single consumer, suspension is transparent. *)
Definition await {A : Type} (m : M A) : M A := m.

Definition log (ev : event) (h : heap) : heap :=
  {| it_st := it_st h; cl_st := cl_st h; trace := trace h ++ [ev] |}.

(** [self.iterator.__anext__()] *)
Definition iterator_anext (self : AsyncMappingIterator) : M Raw :=
  fun h =>
    let (r, p') := iterator self (it_st h) in
    (r, {| it_st := p'; cl_st := cl_st h; trace := trace h |}).

(** [self.mapper(item)] *)
Definition call_mapper (self : AsyncMappingIterator) (item : Raw) : M (option Mapped) :=
  fun h => (mapper self item, h).

(** [self.close()]: the invocation is logged, then the callable runs. *)
Definition call_close (c : Callable) : M unit :=
  fun h =>
    let (r, c') := call c (cl_st h) in
    (r, {| it_st := it_st h; cl_st := c'; trace := trace h ++ [EvClose] |}).

Local Notation "x <- m ;; k" := (bind m (fun x => k))
  (at level 100, m at next level, right associativity).

(** The inner coroutine [next] of [__anext__] (source lines 193-202). *)
Definition next (self : AsyncMappingIterator) : M (option Mapped) :=
  try_except_Exception
    (item <- await (iterator_anext self) ;;
     call_mapper self item)
    (fun e =>
       _ <- match close self with
            | Some c =>
                if iscoroutinefunction c
                then await (call_close c)
                else call_close c
            | None => ret tt
            end ;;
       raise e).

(** [while mapped_item is None: mapped_item = await next()].  [None] as a
    result means that the fuel ran out before the loop ended. *)
Fixpoint while_is_None (self : AsyncMappingIterator) (fuel : nat)
    (mapped_item : option Mapped) (h : heap)
    : option (result (option Mapped) * heap) :=
  match mapped_item with
  | Some _ => Some (Return mapped_item, h)
  | None =>
      match fuel with
      | O => None
      | S fuel' =>
          match next self h with
          | (Return m, h') => while_is_None self fuel' m h'
          | (Raise e, h') => Some (Raise e, h')
          end
      end
  end.

(** [AsyncMappingIterator.__anext__] (source lines 190-208).  The value
    returned to the caller is logged as [EvItem]. *)
Definition __anext__ (self : AsyncMappingIterator) (fuel : nat) (h : heap)
    : option (result (option Mapped) * heap) :=
  let out :=
    match next self h with
    | (Return mapped_item, h1) =>
        if skip_none self
        then while_is_None self fuel mapped_item h1
        else Some (Return mapped_item, h1)
    | (Raise e, h1) => Some (Raise e, h1)
    end in
  match out with
  | Some (Return v, h') => Some (Return v, log (EvItem v) h')
  | Some (Raise e, h') => Some (Raise e, h')
  | None => None
  end.

(** The consumer [async for item in self]: it pulls until a pull raises,
    and collects the items.  The result holds the items received, the
    exception that ended the iteration ([StopAsyncIteration] ends the
    loop normally, any other exception leaves it), and the final heap. *)
Fixpoint async_for (self : AsyncMappingIterator) (fuel : nat) (h : heap)
    : option (list (option Mapped) * exn * heap) :=
  match fuel with
  | O => None
  | S fuel' =>
      match __anext__ self fuel' h with
      | None => None
      | Some (Raise e, h') => Some ([], e, h')
      | Some (Return v, h') =>
          match async_for self fuel' h' with
          | Some (vs, e, h'') => Some (v :: vs, e, h'')
          | None => None
          end
      end
  end.

(** A caller that pulls [n] times whatever the earlier pulls did, also
    after a failure and after the end of the sequence. *)
Fixpoint pulls (self : AsyncMappingIterator) (fuel : nat) (n : nat) (h : heap)
    : option (list (result (option Mapped)) * heap) :=
  match n with
  | O => Some ([], h)
  | S n' =>
      match __anext__ self fuel h with
      | None => None
      | Some (r, h') =>
          match pulls self fuel n' h' with
          | Some (rs, h'') => Some (r :: rs, h'')
          | None => None
          end
      end
  end.

(** Number of invocations of [self.close] in a log. *)
Fixpoint close_count (t : list event) : nat :=
  match t with
  | [] => 0
  | EvClose :: t' => S (close_count t')
  | EvItem _ :: t' => close_count t'
  end.

(** The items handed to the caller, in a log. *)
Fixpoint items_of (t : list event) : list (option Mapped) :=
  match t with
  | [] => []
  | EvItem v :: t' => v :: items_of t'
  | EvClose :: t' => items_of t'
  end.

(** *** Describing runs *)

(** What the [except] clause of [next] makes of an exception [e] raised in
    its [try] block: [close], if set, runs once, and then [e] is raised
    again, unless [close] itself raised. *)
Definition close_then_raise (self : AsyncMappingIterator) (e : exn) (h : heap) : exn * heap :=
  if isinstance_Exception e then
    match close self with
    | Some c =>
        let h' := {| it_st := it_st h; cl_st := snd (call c (cl_st h));
                     trace := trace h ++ [EvClose] |} in
        match fst (call c (cl_st h)) with
        | Return _ => (e, h')
        | Raise ce => (ce, h')
        end
    | None => (e, h)
    end
  else (e, h).

(** The heap in which the [except] clause runs once the producer, started
    in heap [h], has returned all its items and has raised, which left it
    in state [p']: the items [ys] have been handed to the caller. *)
Definition at_raise (h : heap) (p' : P) (ys : list (option Mapped)) : heap :=
  {| it_st := p'; cl_st := cl_st h; trace := trace h ++ map EvItem ys |}.

(** From state [p] the producer returns the items [xs], one per pull, and
    at the next pull raises [e], which leaves it in state [p']. *)
Fixpoint emits (it : P -> result Raw * P) (p : P) (xs : list Raw) (e : exn) (p' : P) : Prop :=
  match xs with
  | [] => it p = (Raise e, p')
  | x :: xs' => fst (it p) = Return x /\ emits it (snd (it p)) xs' e p'
  end.

(** From state [p] the producer returns the items [xs], each of which the
    mapper maps to [None], and is then in state [q]. *)
Fixpoint skips (self : AsyncMappingIterator) (p : P) (xs : list Raw) (q : P) : Prop :=
  match xs with
  | [] => q = p
  | x :: xs' =>
      fst (iterator self p) = Return x /\ mapper self x = Return None /\
      skips self (snd (iterator self p)) xs' q
  end.

(** In producer state [q] the [try] block of [next] raises [e]: the
    producer raises it, or the producer returns an item on which the
    mapper raises it.  The producer is left in state [q']. *)
Definition try_raises (self : AsyncMappingIterator) (q : P) (e : exn) (q' : P) : Prop :=
  iterator self q = (Raise e, q') \/
  exists x, iterator self q = (Return x, q') /\ mapper self x = Raise e.

(** The producer state after [n] pulls. *)
Fixpoint after_pulls (it : P -> result Raw * P) (n : nat) (p : P) : P :=
  match n with
  | O => p
  | S n' => after_pulls it n' (snd (it p))
  end.

Definition is_Raise {A : Type} (r : result A) : bool :=
  match r with
  | Raise _ => true
  | Return _ => false
  end.

Definition is_None {A : Type} (m : option A) : bool :=
  match m with
  | None => true
  | Some _ => false
  end.

(** What reaches the caller of the values [ms] the mapper returned, under
    the flag [skip_none]. *)
Definition delivered (skip : bool) (ms : list (option Mapped)) : list (option Mapped) :=
  if skip then List.filter (fun m => negb (is_None m)) ms else ms.

(** Number of [None]s among mapped values. *)
Definition none_count (ms : list (option Mapped)) : nat :=
  length (List.filter is_None ms).

(** The last step of [__anext__]: a returned value is logged as handed to
    the caller. *)
Definition deliver (out : option (result (option Mapped) * heap))
    : option (result (option Mapped) * heap) :=
  match out with
  | Some (Return v, h') => Some (Return v, log (EvItem v) h')
  | Some (Raise e, h') => Some (Raise e, h')
  | None => None
  end.

(** The rest of [async_for] once a pull has come back with [out], before
    the item is logged. *)
Definition resume (self : AsyncMappingIterator) (fuel : nat)
    (out : option (result (option Mapped) * heap))
    : option (list (option Mapped) * exn * heap) :=
  match out with
  | None => None
  | Some (Raise e, h') => Some ([], e, h')
  | Some (Return v, h') =>
      match async_for self fuel (log (EvItem v) h') with
      | Some (vs, e, h'') => Some (v :: vs, e, h'')
      | None => None
      end
  end.

End AsyncMappingIterator.

Arguments Callable : clear implicits.
Arguments AsyncMappingIterator : clear implicits.
Arguments event : clear implicits.
Arguments heap : clear implicits.

(** ** OpenAIModel *)

(** The Python values an attribute of the model holds. *)
Inductive pyval : Type :=
| PyNone
| PyBool (b : bool)
| PyStr (s : string).

Section OpenAIModel.
(** [BaseKServeModel.__init__], the initialiser of the base class, which
    lives in [kserve/model.py]: it is given the name and the instance (its
    attribute dictionary), and returns the instance as it leaves it, or
    raises. *)
Variable BaseKServeModel_init : string -> gmap string pyval -> result (gmap string pyval).

(** [OpenAIModel.__init__] (source lines 154-159):
    [super().__init__(name)], then [self.ready = True]. *)
Definition OpenAIModel_init (name : string) (self : gmap string pyval)
    : result (gmap string pyval) :=
  match BaseKServeModel_init name self with
  | Return self' => Return (<["ready" := PyBool true]> self')
  | Raise e => Raise e
  end.
End OpenAIModel.

(** [self.ready] *)
Definition ready (self : gmap string pyval) : option pyval := self !! "ready".

(** ** Concrete producers, mappers and close actions *)

(** A producer that plays a script: one outcome per pull, and
    [StopAsyncIteration] at every pull once the script is over, as a finished
    asynchronous generator does.  A script with outcomes after a [Raise] is
    an iterator object that goes on after it has failed. *)
Definition script_anext {A : Type} (s : list (result A)) : result A * list (result A) :=
  match s with
  | [] => (Raise StopAsyncIteration, [])
  | r :: s' => (r, s')
  end.

(** The default mapper, [lambda item: item]. *)
Definition default_mapper {A : Type} (item : option A) : result (option A) := Return item.

(** A mapper that raises on every item. *)
Definition raising_mapper {A B : Type} (e : exn) (item : A) : result (option B) := Raise e.

(** A close action that counts its invocations and returns. *)
Definition counting_close : Callable nat :=
  {| iscoroutinefunction := true; call := fun n => (Return tt, S n) |}.

(** A close action that raises [e] whenever it is invoked. *)
Definition failing_close (e : exn) : Callable nat :=
  {| iscoroutinefunction := false; call := fun n => (Raise e, S n) |}.

(** A close action that releases a resource at its first invocation and
    raises [e] when it is invoked again. *)
Definition close_once (e : exn) : Callable nat :=
  {| iscoroutinefunction := true;
     call := fun n => (match n with O => Return tt | S _ => Raise e end, S n) |}.

(** The heap at construction: the producer in state [p], [close] never
    invoked, nothing observed. *)
Definition fresh {P Mapped : Type} (p : P) : heap P nat Mapped :=
  {| it_st := p; cl_st := 0; trace := [] |}.

(** A base initialiser for the examples: it stores the name and starts the
    model as not ready. *)
Definition sample_base_init (name : string) (self : gmap string pyval)
    : result (gmap string pyval) :=
  Return (<["ready" := PyBool false]> (<["name" := PyStr name]> self)).

(** The adapter of the examples: scripted producer, default mapper over
    strings, [skip_none] on. *)
Definition chunks (close : option (Callable nat))
    : AsyncMappingIterator (list (result (option string))) nat (option string) string :=
  {| iterator := script_anext; mapper := default_mapper; skip_none := true; close := close |}.

(** An adapter over numbered items whose mapper raises [e] on every item. *)
Definition broken_mapper (e : exn) (close : option (Callable nat))
    : AsyncMappingIterator (list (result nat)) nat nat nat :=
  {| iterator := script_anext; mapper := raising_mapper e; skip_none := true; close := close |}.

(** ** Construction and the iterator protocol *)

(** [AsyncMappingIterator.__init__] (source lines 175-185): the four
    arguments are stored as they come.  An optional argument that the caller
    leaves out is [None] here and takes the default of the signature,
    [skip_none=True] and [close=None]. *)
Definition AsyncMappingIterator_init {P C Raw Mapped : Type}
    (iterator : P -> result Raw * P) (mapper : Raw -> result (option Mapped))
    (skip_none : option bool) (close : option (Callable C))
    : AsyncMappingIterator P C Raw Mapped :=
  {| iterator := iterator;
     mapper := mapper;
     skip_none := match skip_none with Some b => b | None => true end;
     close := close |}.

(** [AsyncMappingIterator(iterator)], every optional argument left out: the
    mapper is the default of the signature, [lambda item: item]. *)
Definition AsyncMappingIterator_of {P C A : Type} (iterator : P -> result (option A) * P)
    : AsyncMappingIterator P C (option A) A :=
  AsyncMappingIterator_init iterator default_mapper None None.

(** [AsyncMappingIterator.__aiter__] (source lines 187-188): the adapter
    is its own iterator. *)
Definition __aiter__ {P C Raw Mapped : Type} (self : AsyncMappingIterator P C Raw Mapped)
    : AsyncMappingIterator P C Raw Mapped := self.

(** A producer without state that returns [x] at every pull and never
    ends. *)
Definition endless {A : Type} (x : A) (u : unit) : result A * unit := (Return x, tt).

(** A mapper that maps every item to [None]. *)
Definition none_mapper {A B : Type} (item : A) : result (option B) := Return None.

(** The state behind the close action [c] after it has been invoked [n]
    times from state [s]. *)
Fixpoint invoked {C : Type} (c : Callable C) (n : nat) (s : C) : C :=
  match n with
  | O => s
  | S n' => invoked c n' (snd (call c s))
  end.

(** * Properties *)

(** Both branches of the test [inspect.iscoroutinefunction(self.close)]
    invoke [close]; this runs the test and the call in heap [h]. *)
Ltac run_close c h :=
  destruct (iscoroutinefunction c); cbn [it_st cl_st trace];
  destruct (call c (cl_st h)) as [[? | ?] ?].

(** ** The inner coroutine [next] *)

Section NextFacts.
Context {P C Raw Mapped : Type}.
Variable self : AsyncMappingIterator P C Raw Mapped.

(** The producer returns an item and the mapper returns: [next] returns the
    mapped value and only the producer has moved. *)
Lemma next_returns (h : heap P C Mapped) (x : Raw) (p' : P) (m : option Mapped) :
  iterator self (it_st h) = (Return x, p') ->
  mapper self x = Return m ->
  next self h = (Return m, {| it_st := p'; cl_st := cl_st h; trace := trace h |}).
Proof.
  intros Hit Hmap.
  unfold next, try_except_Exception, bind, await, iterator_anext, call_mapper.
  rewrite Hit, Hmap. reflexivity.
Qed.

(** The [try] block raises [e]: [next] raises what [close_then_raise]
    says, in the heap it says. *)
Lemma next_raises (h : heap P C Mapped) (e : exn) (q' : P) :
  try_raises self (it_st h) e q' ->
  next self h =
    (Raise (fst (close_then_raise self e {| it_st := q'; cl_st := cl_st h; trace := trace h |})),
     snd (close_then_raise self e {| it_st := q'; cl_st := cl_st h; trace := trace h |})).
Proof.
  intros [Hit | (x & Hit & Hmap)];
    unfold next, try_except_Exception, bind, await, iterator_anext, call_mapper,
      close_then_raise, call_close, ret, raise;
    rewrite Hit; try rewrite Hmap; cbn [it_st cl_st trace];
    destruct (isinstance_Exception e); try reflexivity;
    destruct (close self) as [c|]; try reflexivity;
    run_close c h; reflexivity.
Qed.

(** [next] always comes back, with a value or an exception; when it
    returns a value, [close] has not run. *)
Lemma next_Return_trace (h h' : heap P C Mapped) (m : option Mapped) :
  next self h = (Return m, h') ->
  trace h' = trace h /\ cl_st h' = cl_st h.
Proof.
  unfold next, try_except_Exception, bind, await, iterator_anext, call_mapper,
    call_close, ret, raise.
  destruct (iterator self (it_st h)) as [[x|e] p'].
  - destruct (mapper self x) as [m'|e].
    + intros [= <- <-]. auto.
    + destruct (isinstance_Exception e); [|discriminate].
      destruct (close self) as [c|]; [|discriminate].
      run_close c h; discriminate.
  - destruct (isinstance_Exception e); [|discriminate].
    destruct (close self) as [c|]; [|discriminate].
    run_close c h; discriminate.
Qed.

(** One call of [next] invokes [close] at most once, and never hands an
    item to the caller by itself. *)
Lemma next_close_count (h h' : heap P C Mapped) (r : result (option Mapped)) :
  next self h = (r, h') ->
  (trace h' = trace h \/ (is_Raise r = true /\ trace h' = trace h ++ [EvClose])).
Proof.
  unfold next, try_except_Exception, bind, await, iterator_anext, call_mapper,
    call_close, ret, raise.
  destruct (iterator self (it_st h)) as [[x|e] p'].
  - destruct (mapper self x) as [m'|e].
    + intros [= <- <-]. auto.
    + destruct (isinstance_Exception e); [|intros [= <- <-]; auto].
      destruct (close self) as [c|]; [|intros [= <- <-]; auto].
      run_close c h; intros [= <- <-]; auto.
  - destruct (isinstance_Exception e); [|intros [= <- <-]; auto].
    destruct (close self) as [c|]; [|intros [= <- <-]; auto].
    run_close c h; intros [= <- <-]; auto.
Qed.

End NextFacts.

(** ** One pull: [__anext__] *)

Section PullFacts.
Context {P C Raw Mapped : Type}.
Variable self : AsyncMappingIterator P C Raw Mapped.

Lemma heap_eta (h : heap P C Mapped) :
  {| it_st := it_st h; cl_st := cl_st h; trace := trace h |} = h.
Proof. destruct h; reflexivity. Qed.

Lemma iterator_step (p : P) (x : Raw) :
  fst (iterator self p) = Return x ->
  iterator self p = (Return x, snd (iterator self p)).
Proof. destruct (iterator self p) as [r p']; cbn; intros ->; reflexivity. Qed.

(** The loop stops at once on a value that is not [None]. *)
Lemma while_is_None_Some (fuel : nat) (v : Mapped) (h : heap P C Mapped) :
  while_is_None self fuel (Some v) h = Some (Return (Some v), h).
Proof. destruct fuel; reflexivity. Qed.

(** One turn of the loop. *)
Lemma while_is_None_step (fuel : nat) (h : heap P C Mapped) :
  while_is_None self (S fuel) None h =
    match next self h with
    | (Return m, h') => while_is_None self fuel m h'
    | (Raise e, h') => Some (Raise e, h')
    end.
Proof. reflexivity. Qed.

(** More fuel does not change a result. *)
Lemma while_is_None_mono (fuel fuel' : nat) (m : option Mapped) (h : heap P C Mapped)
    (out : result (option Mapped) * heap P C Mapped) :
  fuel <= fuel' ->
  while_is_None self fuel m h = Some out ->
  while_is_None self fuel' m h = Some out.
Proof.
  revert fuel' m h. induction fuel as [|fuel IH]; intros fuel' m h Hle.
  - destruct m as [v|]; [|discriminate].
    cbn. rewrite while_is_None_Some. auto.
  - destruct m as [v|].
    + cbn. rewrite while_is_None_Some. auto.
    + destruct fuel' as [|fuel']; [lia|].
      rewrite !while_is_None_step.
      destruct (next self h) as [[m'|e] h']; [|auto].
      apply IH. lia.
Qed.

(** With [skip_none] on, a pull is the loop entered with no value yet. *)
Lemma anext_skip (fuel : nat) (h : heap P C Mapped) :
  skip_none self = true ->
  __anext__ self fuel h = deliver (while_is_None self (S fuel) None h).
Proof.
  intros Hskip. unfold __anext__. rewrite Hskip, while_is_None_step.
  destruct (next self h) as [[m|e] h']; reflexivity.
Qed.

(** With [skip_none] off, a pull is one call of [next]. *)
Lemma anext_noskip (fuel : nat) (h : heap P C Mapped) :
  skip_none self = false ->
  __anext__ self fuel h = deliver (Some (next self h)).
Proof.
  intros Hskip. unfold __anext__. rewrite Hskip.
  destruct (next self h) as [[m|e] h']; reflexivity.
Qed.

Lemma anext_mono (fuel fuel' : nat) (h : heap P C Mapped)
    (out : result (option Mapped) * heap P C Mapped) :
  fuel <= fuel' ->
  __anext__ self fuel h = Some out ->
  __anext__ self fuel' h = Some out.
Proof.
  intros Hle. destruct (skip_none self) eqn:Hskip.
  - rewrite !anext_skip by assumption.
    destruct (while_is_None self (S fuel) None h) as [o|] eqn:Hw; [|discriminate].
    rewrite (while_is_None_mono (S fuel) (S fuel') None h o) by (assumption || lia).
    auto.
  - rewrite !anext_noskip by assumption. auto.
Qed.

(** The loop runs through a prefix of items that map to [None], one turn
    per item. *)
Lemma while_is_None_skips (xs : list Raw) (q : P) (fuel : nat) (h : heap P C Mapped) :
  skips self (it_st h) xs q ->
  while_is_None self (length xs + fuel) None h =
  while_is_None self fuel None {| it_st := q; cl_st := cl_st h; trace := trace h |}.
Proof.
  revert h. induction xs as [|x xs IH]; intros h Hsk.
  - cbn in Hsk. subst q. rewrite heap_eta. reflexivity.
  - destruct Hsk as (Hit & Hmap & Hsk).
    cbn [length Nat.add]. rewrite while_is_None_step.
    rewrite (next_returns self h x _ None (iterator_step _ _ Hit) Hmap).
    apply (IH {| it_st := snd (iterator self (it_st h)); cl_st := cl_st h;
                 trace := trace h |}).
    exact Hsk.
Qed.

(** A pull that first skips the items [xs] and then gets [r] from [next],
    where [r] is not a value to skip: the pull ends with [r]. *)
Lemma anext_after_skips (xs : list Raw) (q : P) (fuel : nat) (h h2 : heap P C Mapped)
    (r : result (option Mapped)) :
  skips self (it_st h) xs q ->
  xs = [] \/ skip_none self = true ->
  next self {| it_st := q; cl_st := cl_st h; trace := trace h |} = (r, h2) ->
  r <> Return None \/ skip_none self = false ->
  length xs <= fuel ->
  __anext__ self fuel h = deliver (Some (r, h2)).
Proof.
  intros Hsk Hxs Hnext Hr Hfuel.
  destruct (skip_none self) eqn:Hskip.
  - rewrite anext_skip by assumption.
    replace (S fuel) with (length xs + S (fuel - length xs)) by lia.
    rewrite (while_is_None_skips xs q _ h Hsk), while_is_None_step, Hnext.
    destruct r as [[v|]|e].
    + rewrite while_is_None_Some. reflexivity.
    + destruct Hr as [Hr|Hr]; [congruence|discriminate].
    + reflexivity.
  - destruct Hxs as [->|?]; [|discriminate].
    cbn in Hsk. subst q. rewrite heap_eta in Hnext.
    rewrite anext_noskip, Hnext by assumption. reflexivity.
Qed.

(** A pull invokes [close] at most once, and not at all when it returns an
    item. *)
Lemma while_is_None_trace (fuel : nat) (m : option Mapped) (h h' : heap P C Mapped)
    (r : result (option Mapped)) :
  while_is_None self fuel m h = Some (r, h') ->
  trace h' = trace h \/ (is_Raise r = true /\ trace h' = trace h ++ [EvClose]).
Proof.
  revert m h. induction fuel as [|fuel IH]; intros m h.
  - destruct m as [v|]; [|discriminate]. cbn. intros [= <- <-]. auto.
  - destruct m as [v|].
    + cbn. intros [= <- <-]. auto.
    + rewrite while_is_None_step.
      destruct (next self h) as [[m'|e] h1] eqn:Hn.
      * intros Hw. apply IH in Hw.
        destruct (next_Return_trace self _ _ _ Hn) as [Ht _].
        rewrite <- Ht. exact Hw.
      * intros [= <- <-]. apply (next_close_count self _ _ _ Hn).
Qed.

Lemma anext_trace (fuel : nat) (h h' : heap P C Mapped) (r : result (option Mapped)) :
  __anext__ self fuel h = Some (r, h') ->
  match r with
  | Return v => trace h' = trace h ++ [EvItem v]
  | Raise _ => trace h' = trace h \/ trace h' = trace h ++ [EvClose]
  end.
Proof.
  unfold __anext__.
  destruct (next self h) as [[m|e] h1] eqn:Hn.
  - destruct (next_Return_trace self _ _ _ Hn) as [Ht _].
    destruct (skip_none self).
    + destruct (while_is_None self fuel m h1) as [[[v|e] h2]|] eqn:Hw;
        [| |discriminate]; intros [= <- <-];
        destruct (while_is_None_trace _ _ _ _ _ Hw) as [Hw'|[Hr Hw']];
        cbn in *; try discriminate; rewrite Hw', Ht; auto.
    + intros [= <- <-]. cbn. rewrite Ht. reflexivity.
  - intros [= <- <-].
    destruct (next_close_count self _ _ _ Hn) as [?|[_ ?]]; auto.
Qed.

End PullFacts.

(** ** Iterating: [async for] and repeated pulls *)

Section IterationFacts.
Context {P C Raw Mapped : Type}.
Variable self : AsyncMappingIterator P C Raw Mapped.

(** With [skip_none] on, one turn of [async for] is the skipping loop
    followed by the rest of the iteration. *)
Lemma async_for_skip (fuel : nat) (h : heap P C Mapped) :
  skip_none self = true ->
  async_for self (S fuel) h = resume self fuel (while_is_None self (S fuel) None h).
Proof.
  intros Hskip. cbn [async_for]. rewrite anext_skip by assumption.
  destruct (while_is_None self (S fuel) None h) as [[[v|e] h']|]; reflexivity.
Qed.

Lemma async_for_noskip (fuel : nat) (h : heap P C Mapped) :
  skip_none self = false ->
  async_for self (S fuel) h = resume self fuel (Some (next self h)).
Proof.
  intros Hskip. cbn [async_for]. rewrite anext_noskip by assumption.
  destruct (next self h) as [[v|e] h']; reflexivity.
Qed.

Lemma resume_emits (f : Raw -> option Mapped) (xs : list Raw) (e : exn) (p' : P) :
  skip_none self = true ->
  forall (h : heap P C Mapped) (f1 f2 : nat),
    emits (iterator self) (it_st h) xs e p' ->
    Forall (fun x => mapper self x = Return (f x)) xs ->
    length xs < f1 ->
    length xs < f2 ->
    resume self f1 (while_is_None self f2 None h) =
      Some (delivered true (map f xs),
            fst (close_then_raise self e (at_raise h p' (delivered true (map f xs)))),
            snd (close_then_raise self e (at_raise h p' (delivered true (map f xs))))).
Proof.
  intros Hskip. induction xs as [|x xs IH]; intros h f1 f2 Hem Hmap Hf1 Hf2.
  - destruct f2 as [|f2]; [cbn in Hf2; lia|].
    rewrite while_is_None_step.
    rewrite (next_raises self h e p') by (left; exact Hem).
    unfold at_raise. cbn [resume delivered map List.filter]. rewrite app_nil_r.
    reflexivity.
  - destruct Hem as [Hit Hem]. inversion Hmap as [|? ? Hx Hxs]; subst.
    destruct f2 as [|f2]; [cbn in Hf2; lia|].
    rewrite while_is_None_step.
    rewrite (next_returns self h x _ (f x) (iterator_step self _ _ Hit) Hx).
    cbn [map]. destruct (f x) as [v|] eqn:Hfx.
    + rewrite while_is_None_Some. cbn [resume].
      destruct f1 as [|f1]; [cbn in Hf1; lia|].
      rewrite async_for_skip by assumption.
      rewrite IH; [| exact Hem | exact Hxs | cbn in Hf1; lia | cbn in Hf1; lia].
      unfold at_raise, delivered, log.
      cbn [List.filter is_None negb map it_st cl_st trace].
      rewrite <- app_assoc. reflexivity.
    + rewrite IH; [| exact Hem | exact Hxs | cbn in Hf1; lia | cbn in Hf2; lia].
      reflexivity.
Qed.

Lemma async_for_emits_noskip (f : Raw -> option Mapped) (xs : list Raw) (e : exn) (p' : P) :
  skip_none self = false ->
  forall (h : heap P C Mapped) (fuel : nat),
    emits (iterator self) (it_st h) xs e p' ->
    Forall (fun x => mapper self x = Return (f x)) xs ->
    length xs < fuel ->
    async_for self fuel h =
      Some (map f xs,
            fst (close_then_raise self e (at_raise h p' (map f xs))),
            snd (close_then_raise self e (at_raise h p' (map f xs)))).
Proof.
  intros Hskip. induction xs as [|x xs IH]; intros h fuel Hem Hmap Hfuel;
    (destruct fuel as [|fuel]; [cbn in Hfuel; lia|]);
    rewrite async_for_noskip by assumption.
  - rewrite (next_raises self h e p') by (left; exact Hem).
    unfold at_raise. cbn [resume map]. rewrite app_nil_r. reflexivity.
  - destruct Hem as [Hit Hem]. inversion Hmap as [|? ? Hx Hxs]; subst.
    rewrite (next_returns self h x _ (f x) (iterator_step self _ _ Hit) Hx).
    cbn [resume].
    rewrite IH; [| exact Hem | exact Hxs | cbn in Hfuel; lia].
    unfold at_raise, log. cbn [map it_st cl_st trace].
    rewrite <- app_assoc. reflexivity.
Qed.

(** The whole iteration over a producer that returns [xs] and then raises
    [e], when the mapper returns on every item: the caller receives the
    mapped values that [skip_none] lets through, and the iteration ends
    with what the [except] clause makes of [e]. *)
Lemma async_for_emits (f : Raw -> option Mapped) (xs : list Raw) (e : exn) (p' : P)
    (h : heap P C Mapped) (fuel : nat) :
  emits (iterator self) (it_st h) xs e p' ->
  Forall (fun x => mapper self x = Return (f x)) xs ->
  length xs + 2 <= fuel ->
  async_for self fuel h =
    Some (delivered (skip_none self) (map f xs),
          fst (close_then_raise self e (at_raise h p' (delivered (skip_none self) (map f xs)))),
          snd (close_then_raise self e (at_raise h p' (delivered (skip_none self) (map f xs))))).
Proof.
  intros Hem Hmap Hfuel. destruct (skip_none self) eqn:Hskip.
  - destruct fuel as [|fuel]; [lia|].
    rewrite async_for_skip by assumption.
    apply resume_emits; auto; lia.
  - unfold delivered. apply async_for_emits_noskip; auto; lia.
Qed.

End IterationFacts.

(** ** Reading the log *)

Section LogFacts.
Context {Mapped : Type}.

Lemma close_count_app (t1 t2 : list (event Mapped)) :
  close_count (t1 ++ t2) = close_count t1 + close_count t2.
Proof.
  induction t1 as [|[v|] t1 IH]; cbn; rewrite ?IH; reflexivity.
Qed.

Lemma close_count_items (ys : list (option Mapped)) :
  close_count (map EvItem ys) = 0.
Proof. induction ys as [|y ys IH]; cbn; auto. Qed.

Lemma items_of_app (t1 t2 : list (event Mapped)) :
  items_of (t1 ++ t2) = items_of t1 ++ items_of t2.
Proof.
  induction t1 as [|[v|] t1 IH]; cbn; rewrite ?IH; reflexivity.
Qed.

Lemma items_of_items (ys : list (option Mapped)) :
  items_of (map EvItem ys) = ys.
Proof. induction ys as [|y ys IH]; cbn; rewrite ?IH; reflexivity. Qed.

(** Dropping the [None]s keeps, in order, the values that are there. *)
Lemma filter_not_None_omap {A : Type} (f : A -> option Mapped) (xs : list A) :
  List.filter (fun m => negb (is_None m)) (map f xs) = map Some (omap f xs).
Proof.
  induction xs as [|x xs IH]; cbn; [reflexivity|].
  destruct (f x) as [v|]; cbn; rewrite IH; reflexivity.
Qed.

Lemma filter_not_None_id (ms : list (option Mapped)) :
  Forall (fun m => m <> None) ms ->
  List.filter (fun m => negb (is_None m)) ms = ms.
Proof.
  induction 1 as [|m ms Hm _ IH]; cbn; [reflexivity|].
  destruct m as [v|]; [|congruence]. cbn. rewrite IH. reflexivity.
Qed.

Lemma kept_plus_dropped (ms : list (option Mapped)) :
  length (List.filter (fun m => negb (is_None m)) ms) + none_count ms = length ms.
Proof.
  unfold none_count. induction ms as [|[v|] ms IH]; cbn; lia.
Qed.

End LogFacts.

Section CloseFacts.
Context {P C Raw Mapped : Type}.
Variable self : AsyncMappingIterator P C Raw Mapped.

(** The [except] clause leaves the producer alone and hands no item to the
    caller; it adds at most one invocation of [close] to the log. *)
Lemma close_then_raise_it_st (e : exn) (h : heap P C Mapped) :
  it_st (snd (close_then_raise self e h)) = it_st h.
Proof.
  unfold close_then_raise.
  destruct (isinstance_Exception e), (close self) as [c|]; try reflexivity.
  destruct (fst (call c (cl_st h))); reflexivity.
Qed.

Lemma close_then_raise_items (e : exn) (h : heap P C Mapped) :
  items_of (trace (snd (close_then_raise self e h))) = items_of (trace h).
Proof.
  unfold close_then_raise.
  destruct (isinstance_Exception e), (close self) as [c|]; try reflexivity.
  destruct (fst (call c (cl_st h))); cbn; rewrite items_of_app; cbn;
    apply app_nil_r.
Qed.

(** When [close] is set and returns, an exception of class [Exception] is
    raised again after exactly one invocation of [close]. *)
Lemma close_then_raise_returns (c : Callable C) (e : exn) (h : heap P C Mapped) :
  isinstance_Exception e = true ->
  close self = Some c ->
  fst (call c (cl_st h)) = Return tt ->
  close_then_raise self e h =
    (e, {| it_st := it_st h; cl_st := snd (call c (cl_st h)); trace := trace h ++ [EvClose] |}).
Proof.
  intros He Hc Hcall. unfold close_then_raise. rewrite He, Hc, Hcall. reflexivity.
Qed.

(** When [close] raises, its exception replaces [e]. *)
Lemma close_then_raise_raises (c : Callable C) (e ce : exn) (h : heap P C Mapped) :
  isinstance_Exception e = true ->
  close self = Some c ->
  fst (call c (cl_st h)) = Raise ce ->
  close_then_raise self e h =
    (ce, {| it_st := it_st h; cl_st := snd (call c (cl_st h)); trace := trace h ++ [EvClose] |}).
Proof.
  intros He Hc Hcall. unfold close_then_raise. rewrite He, Hc, Hcall. reflexivity.
Qed.

(** Without a close action the exception goes through and the heap is
    untouched. *)
Lemma close_then_raise_no_close (e : exn) (h : heap P C Mapped) :
  close self = None ->
  close_then_raise self e h = (e, h).
Proof.
  intros Hc. unfold close_then_raise. rewrite Hc.
  destruct (isinstance_Exception e); reflexivity.
Qed.

(** An exception outside the class [Exception] (a cancellation) goes
    through the clause: [close] is not invoked. *)
Lemma close_then_raise_BaseException (e : exn) (h : heap P C Mapped) :
  isinstance_Exception e = false ->
  close_then_raise self e h = (e, h).
Proof. intros He. unfold close_then_raise. rewrite He. reflexivity. Qed.

End CloseFacts.

(** * The claims *)

(** ** Producer failure *)

(** C1.  A producer returns the [k] items [xs] and then raises the failure
    [E] (an instance of [Exception]); the mapper returns on each item; a
    close action [c] is set and returns.  Then iterating the adapter hands
    the caller the mapped items that [skip_none] lets through, which are
    exactly the [k] mapped items when [skip_none] is off or no mapped value
    is [None]; next it invokes [close] exactly once (the log is the items
    followed by one [EvClose], and the state behind [close] is what one call
    of [c] makes of it); and it ends by raising [E] itself. *)
Theorem producer_failure_closes_once_then_reraises
    {P C Raw Mapped : Type} (self : AsyncMappingIterator P C Raw Mapped)
    (c : Callable C) (f : Raw -> option Mapped) (xs : list Raw) (E : exn)
    (p' : P) (h : heap P C Mapped) (fuel : nat) :
  emits (iterator self) (it_st h) xs E p' ->
  isinstance_Exception E = true ->
  Forall (fun x => mapper self x = Return (f x)) xs ->
  close self = Some c ->
  fst (call c (cl_st h)) = Return tt ->
  length xs + 2 <= fuel ->
  async_for self fuel h =
    Some (delivered (skip_none self) (map f xs), E,
          {| it_st := p';
             cl_st := snd (call c (cl_st h));
             trace := trace h ++ map EvItem (delivered (skip_none self) (map f xs))
                              ++ [EvClose] |}) /\
  (skip_none self = false \/ Forall (fun m => m <> None) (map f xs) ->
   delivered (skip_none self) (map f xs) = map f xs /\
   length (map f xs) = length xs).
Proof.
  intros Hem HE Hmap Hc Hcall Hfuel. split.
  - rewrite (async_for_emits self f xs E p' h fuel Hem Hmap Hfuel).
    rewrite (close_then_raise_returns self c E
               (at_raise h p' (delivered (skip_none self) (map f xs))) HE Hc Hcall).
    cbn [fst snd at_raise it_st cl_st trace].
    rewrite <- app_assoc. reflexivity.
  - intros Hkeep. split; [|apply length_map].
    destruct Hkeep as [-> | Hall]; [reflexivity|].
    unfold delivered. destruct (skip_none self); [|reflexivity].
    apply filter_not_None_id, Hall.
Qed.

(** A run of C1: the producer returns ["A"], then [None], which is skipped,
    and fails with exception 1; [close] has been called once. *)
Lemma producer_failure_closes_once_then_reraises_witness :
  async_for (chunks (Some counting_close)) 4
    (fresh [Return (Some "A"); Return None; Raise (ExceptionObj 1)]) =
    Some ([Some "A"], ExceptionObj 1,
          {| it_st := []; cl_st := 1; trace := [EvItem (Some "A"); EvClose] |}) /\
  (skip_none (chunks (Some counting_close)) = false \/
   Forall (fun m : option string => m <> None) (map (fun x => x) [Some "A"; None]) ->
   delivered (skip_none (chunks (Some counting_close))) (map (fun x => x) [Some "A"; None]) =
     map (fun x => x) [Some "A"; None] /\
   length (map (fun x : option string => x) [Some "A"; None]) = length [Some "A"; None]).
Proof.
  apply (producer_failure_closes_once_then_reraises
           (chunks (Some counting_close)) counting_close (fun x => x)
           [Some "A"; None] (ExceptionObj 1) []
           (fresh [Return (Some "A"); Return None; Raise (ExceptionObj 1)]) 4).
  - cbn. repeat split; reflexivity.
  - reflexivity.
  - repeat constructor.
  - reflexivity.
  - reflexivity.
  - cbn. lia.
Defined.

(** C10.  A pull in which the [try] block raises [E] (the producer raises
    it, or the mapper does on the item pulled), possibly after items that
    were skipped, and in which the close action [c] raises [Cx]: the caller
    observes [Cx], not [E], and [close] has been invoked once in that
    pull. *)
Theorem close_failure_propagates
    {P C Raw Mapped : Type} (self : AsyncMappingIterator P C Raw Mapped)
    (c : Callable C) (xs : list Raw) (q q' : P) (E Cx : exn)
    (h : heap P C Mapped) (fuel : nat) :
  skips self (it_st h) xs q ->
  xs = [] \/ skip_none self = true ->
  try_raises self q E q' ->
  isinstance_Exception E = true ->
  close self = Some c ->
  fst (call c (cl_st h)) = Raise Cx ->
  length xs <= fuel ->
  exists h',
    __anext__ self fuel h = Some (Raise Cx, h') /\
    trace h' = trace h ++ [EvClose] /\
    close_count (trace h') = close_count (trace h) + 1.
Proof.
  intros Hsk Hxs Htry HE Hc Hcall Hfuel.
  pose proof (next_raises self {| it_st := q; cl_st := cl_st h; trace := trace h |}
                E q' Htry) as Hnext.
  cbn [it_st cl_st trace] in Hnext.
  rewrite (close_then_raise_raises self c E Cx
             {| it_st := q'; cl_st := cl_st h; trace := trace h |} HE Hc Hcall) in Hnext.
  cbn [fst snd it_st cl_st trace] in Hnext.
  rewrite (anext_after_skips self xs q fuel h _ _ Hsk Hxs Hnext) by (auto; left; discriminate).
  cbn [deliver]. eexists; split; [reflexivity|]. cbn [trace].
  split; [reflexivity|]. rewrite close_count_app. reflexivity.
Qed.

(** A run of C10: the producer fails with exception 1, [close] with 500. *)
Lemma close_failure_propagates_witness :
  exists h',
    __anext__ (chunks (Some (failing_close (ExceptionObj 500)))) 0
      (fresh [Raise (ExceptionObj 1)]) = Some (Raise (ExceptionObj 500), h') /\
    trace h' = [] ++ [EvClose] /\
    close_count (trace h') = 0 + 1.
Proof.
  apply (close_failure_propagates
           (chunks (Some (failing_close (ExceptionObj 500))))
           (failing_close (ExceptionObj 500)) [] [Raise (ExceptionObj 1)] []
           (ExceptionObj 1) (ExceptionObj 500)
           (fresh [Raise (ExceptionObj 1)]) 0).
  - reflexivity.
  - left. reflexivity.
  - left. reflexivity.
  - reflexivity.
  - reflexivity.
  - reflexivity.
  - cbn. lia.
Defined.

(** ** Mapper failure *)

(** C3, as stated, fails: the producer returns item 1, the mapper raises
    exception 7 on it, and the pull raises exception 7 only after [close]
    has been invoked (one [EvClose] in the log), because the call of the
    mapper sits inside the [try] block of [next]. *)
Lemma mapper_failure_invokes_close :
  exists h',
    __anext__ (broken_mapper (ExceptionObj 7) (Some counting_close)) 0 (fresh [Return 1]) =
      Some (Raise (ExceptionObj 7), h') /\
    trace h' = [EvClose] /\
    close_count (trace h') <> 0.
Proof.
  eexists. split; [reflexivity|]. split; [reflexivity|]. cbn. discriminate.
Qed.

(** C3, amended.  A pull in which the producer returns an item [x] (possibly
    after items that were skipped) and the mapper raises [E], an instance of
    [Exception], on [x], where the close action, if one is set, returns.
    With a close action [c] set, [close] is invoked exactly once (one
    [EvClose] in the log, the state behind [close] stepped by one call of
    [c]) and then [E] itself reaches the caller; with none set, [E] itself
    reaches the caller and nothing is invoked. *)
Theorem mapper_failure_closes_then_reraises
    {P C Raw Mapped : Type} (self : AsyncMappingIterator P C Raw Mapped)
    (xs : list Raw) (q q' : P) (x : Raw) (E : exn)
    (h : heap P C Mapped) (fuel : nat) :
  skips self (it_st h) xs q ->
  xs = [] \/ skip_none self = true ->
  iterator self q = (Return x, q') ->
  mapper self x = Raise E ->
  isinstance_Exception E = true ->
  (forall c, close self = Some c -> fst (call c (cl_st h)) = Return tt) ->
  length xs <= fuel ->
  __anext__ self fuel h =
    Some (Raise E,
          match close self with
          | Some c => {| it_st := q'; cl_st := snd (call c (cl_st h));
                         trace := trace h ++ [EvClose] |}
          | None => {| it_st := q'; cl_st := cl_st h; trace := trace h |}
          end).
Proof.
  intros Hsk Hxs Hit Hmap HE Hcall Hfuel.
  assert (Htry : try_raises self q E q') by (right; exists x; auto).
  pose proof (next_raises self {| it_st := q; cl_st := cl_st h; trace := trace h |}
                E q' Htry) as Hnext.
  cbn [it_st cl_st trace] in Hnext.
  destruct (close self) as [c|] eqn:Hc.
  - rewrite (close_then_raise_returns self c E
               {| it_st := q'; cl_st := cl_st h; trace := trace h |} HE Hc
               (Hcall c eq_refl)) in Hnext.
    cbn [fst snd it_st cl_st trace] in Hnext.
    rewrite (anext_after_skips self xs q fuel h _ _ Hsk Hxs Hnext)
      by (auto; left; discriminate).
    reflexivity.
  - rewrite (close_then_raise_no_close self E
               {| it_st := q'; cl_st := cl_st h; trace := trace h |} Hc) in Hnext.
    cbn [fst snd] in Hnext.
    rewrite (anext_after_skips self xs q fuel h _ _ Hsk Hxs Hnext)
      by (auto; left; discriminate).
    reflexivity.
Qed.

(** A run of the amended C3: the first item maps to [None] and is skipped,
    the mapper raises exception 7 on the second, [close] is called once. *)
Lemma mapper_failure_closes_then_reraises_witness :
  __anext__
    {| iterator := script_anext;
       mapper := fun n : nat => match n with O => Return None | S _ => Raise (ExceptionObj 7) end;
       skip_none := true;
       close := Some counting_close |}
    1 (fresh (Mapped := nat) [Return 0; Return 1]) =
    Some (Raise (ExceptionObj 7), {| it_st := []; cl_st := 1; trace := [EvClose] |}).
Proof.
  apply (mapper_failure_closes_then_reraises
           {| iterator := script_anext;
              mapper := fun n : nat => match n with O => Return None | S _ => Raise (ExceptionObj 7) end;
              skip_none := true;
              close := Some counting_close |}
           [0] [Return 1] [] 1 (ExceptionObj 7)
           (fresh (Mapped := nat) [Return 0; Return 1]) 1).
  - cbn. repeat split; reflexivity.
  - right. reflexivity.
  - reflexivity.
  - reflexivity.
  - reflexivity.
  - intros c [= <-]. reflexivity.
  - cbn. lia.
Defined.

(** ** How often [close] runs *)

(** C4, as stated, fails: the producer returns two items, the mapper raises
    on both, the caller pulls twice, and [close] has run twice. *)
Lemma close_invoked_twice :
  exists h',
    pulls (broken_mapper (ExceptionObj 7) (Some counting_close)) 0 2
      (fresh [Return 1; Return 2]) =
      Some ([Raise (ExceptionObj 7); Raise (ExceptionObj 7)], h') /\
    close_count (trace h') = 2 /\
    ~ close_count (trace h') <= 1.
Proof.
  eexists. split; [reflexivity|]. split; [reflexivity|]. cbn. lia.
Qed.

(** Number of pulls that raised. *)
Lemma raised_le_length {A : Type} (rs : list (result A)) :
  length (List.filter is_Raise rs) <= length rs.
Proof. induction rs as [|[a|e] rs IH]; cbn; lia. Qed.

(** C4, amended.  [close] is invoked at most once per pull, and only in a
    pull that ends by raising: after any [n] pulls the number of
    invocations is at most the number of pulls that raised, hence at most
    [n]. *)
Theorem close_at_most_once_per_raising_pull
    {P C Raw Mapped : Type} (self : AsyncMappingIterator P C Raw Mapped)
    (fuel n : nat) (h h' : heap P C Mapped) (rs : list (result (option Mapped))) :
  pulls self fuel n h = Some (rs, h') ->
  length rs = n /\
  close_count (trace h') <= close_count (trace h) + length (List.filter is_Raise rs) /\
  close_count (trace h') <= close_count (trace h) + n.
Proof.
  revert h h' rs. induction n as [|n IH]; intros h h' rs.
  - cbn. intros [= <- <-]. cbn. repeat split; lia.
  - cbn [pulls].
    destruct (__anext__ self fuel h) as [[r h1]|] eqn:Hpull; [|discriminate].
    destruct (pulls self fuel n h1) as [[rs' h2]|] eqn:Hrest; [|discriminate].
    intros [= <- <-].
    destruct (IH _ _ _ Hrest) as (Hlen & Hcount & _).
    pose proof (anext_trace self _ _ _ _ Hpull) as Ht.
    pose proof (raised_le_length rs') as Hle.
    assert (close_count (trace h2) <=
            close_count (trace h) + length (List.filter is_Raise (r :: rs'))) as Hgoal.
    { destruct r as [v|e]; cbn [List.filter is_Raise length].
      - rewrite Ht, close_count_app in Hcount. cbn in Hcount. lia.
      - destruct Ht as [Ht|Ht]; rewrite Ht in Hcount;
          rewrite ?close_count_app in Hcount; cbn in Hcount; lia. }
    split; [cbn; lia|]. split; [exact Hgoal|].
    pose proof (raised_le_length (r :: rs')) as Hle'. cbn [length] in Hle'. lia.
Qed.

(** A run of the amended C4: the mapper raises on each of two items. *)
Lemma close_at_most_once_per_raising_pull_witness :
  length [@Raise (option nat) (ExceptionObj 7); Raise (ExceptionObj 7)] = 2 /\
  close_count (@cons (event nat) EvClose [EvClose]) <=
    close_count (@nil (event nat)) +
    length (List.filter is_Raise
              [@Raise (option nat) (ExceptionObj 7); Raise (ExceptionObj 7)]) /\
  close_count (@cons (event nat) EvClose [EvClose]) <= close_count (@nil (event nat)) + 2.
Proof.
  apply (close_at_most_once_per_raising_pull
           (broken_mapper (ExceptionObj 7) (Some counting_close)) 0 2
           (fresh [Return 1; Return 2])
           {| it_st := []; cl_st := 2; trace := [EvClose; EvClose] |}
           [Raise (ExceptionObj 7); Raise (ExceptionObj 7)]).
  reflexivity.
Defined.

(** A consumer that stops at the first pull that raises, as [async for]
    does, sees at most one invocation of [close]. *)
Lemma async_for_closes_at_most_once
    {P C Raw Mapped : Type} (self : AsyncMappingIterator P C Raw Mapped)
    (fuel : nat) (h h' : heap P C Mapped) (ys : list (option Mapped)) (e : exn) :
  async_for self fuel h = Some (ys, e, h') ->
  close_count (trace h') <= close_count (trace h) + 1.
Proof.
  revert h h' ys. induction fuel as [|fuel IH]; intros h h' ys; [discriminate|].
  cbn [async_for].
  destruct (__anext__ self fuel h) as [[[v|e1] h1]|] eqn:Hpull; [| |discriminate].
  - destruct (async_for self fuel h1) as [[[vs e2] h2]|] eqn:Hrest; [|discriminate].
    intros [= <- <- <-]. apply IH in Hrest.
    pose proof (anext_trace self _ _ _ _ Hpull) as Ht. cbn in Ht.
    rewrite Ht, close_count_app in Hrest. cbn in Hrest. lia.
  - intros [= <- <- <-].
    destruct (anext_trace self _ _ _ _ Hpull) as [Ht|Ht]; rewrite Ht;
      rewrite ?close_count_app; cbn; lia.
Qed.

(** ** What the caller receives *)

(** C5.  With [skip_none] on, for a producer that returns the items [xs]
    and then stops, and a mapper that returns [f x] on every item [x]: the
    caller receives exactly the mapped values that are not [None], in the
    order of [xs]; the producer has been read to its end; and the items
    left out are as many as those whose mapped value is [None]. *)
Theorem skip_none_keeps_the_others_in_order
    {P C Raw Mapped : Type} (self : AsyncMappingIterator P C Raw Mapped)
    (f : Raw -> option Mapped) (xs : list Raw) (e : exn) (p' : P)
    (h : heap P C Mapped) (fuel : nat) :
  skip_none self = true ->
  emits (iterator self) (it_st h) xs e p' ->
  Forall (fun x => mapper self x = Return (f x)) xs ->
  length xs + 2 <= fuel ->
  exists ys e' h',
    async_for self fuel h = Some (ys, e', h') /\
    ys = map Some (omap f xs) /\
    items_of (trace h') = items_of (trace h) ++ ys /\
    it_st h' = p' /\
    length xs - length ys = none_count (map f xs) /\
    length ys + none_count (map f xs) = length xs.
Proof.
  intros Hskip Hem Hmap Hfuel.
  rewrite (async_for_emits self f xs e p' h fuel Hem Hmap Hfuel), Hskip.
  unfold delivered.
  pose proof (kept_plus_dropped (map f xs)) as Hk. rewrite length_map in Hk.
  do 3 eexists. split; [reflexivity|].
  split; [apply filter_not_None_omap|].
  split.
  - rewrite close_then_raise_items. unfold at_raise. cbn [trace].
    rewrite items_of_app, items_of_items. reflexivity.
  - split; [apply close_then_raise_it_st|]. split; lia.
Qed.

(** A run of C5: the producer returns ["A"], [None], ["B"], the mapper is
    the identity, and the caller receives ["A"], ["B"]. *)
Lemma skip_none_keeps_the_others_in_order_witness :
  exists ys e' h',
    async_for (chunks None) 5 (fresh [Return (Some "A"); Return None; Return (Some "B")]) =
      Some (ys, e', h') /\
    ys = map Some (omap (fun x : option string => x) [Some "A"; None; Some "B"]) /\
    items_of (trace h') = items_of [] ++ ys /\
    it_st h' = [] /\
    length [Some "A"; None; Some "B"] - length ys =
      none_count (map (fun x : option string => x) [Some "A"; None; Some "B"]) /\
    length ys + none_count (map (fun x : option string => x) [Some "A"; None; Some "B"]) =
      length [Some "A"; None; Some "B"].
Proof.
  apply (skip_none_keeps_the_others_in_order
           (chunks None) (fun x => x) [Some "A"; None; Some "B"] StopAsyncIteration []
           (fresh [Return (Some "A"); Return None; Return (Some "B")]) 5).
  - reflexivity.
  - cbn. repeat split; reflexivity.
  - repeat constructor.
  - cbn. lia.
Defined.

(** ** After the end or a failure *)

(** C8, as stated, fails: a producer that raises exception 1 and returns an
    item at the next pull.  The first pull on the adapter raises exception
    1, the second hands that item to the caller. *)
Lemma item_after_failure :
  exists h',
    pulls (chunks None) 0 2 (fresh [Raise (ExceptionObj 1); Return (Some "late")]) =
      Some ([Raise (ExceptionObj 1); Return (Some "late")], h') /\
    items_of (trace h') = [Some "late"].
Proof. eexists. split; reflexivity. Qed.

(** A pull at which the producer raises: the adapter raises too, hands no
    item to the caller, and the producer has been asked once. *)
Lemma anext_producer_raises
    {P C Raw Mapped : Type} (self : AsyncMappingIterator P C Raw Mapped)
    (fuel : nat) (h : heap P C Mapped) :
  is_Raise (fst (iterator self (it_st h))) = true ->
  exists e' h',
    __anext__ self fuel h = Some (Raise e', h') /\
    it_st h' = snd (iterator self (it_st h)) /\
    items_of (trace h') = items_of (trace h).
Proof.
  intros Hr. destruct (iterator self (it_st h)) as [[x|e] p'] eqn:Hit; [discriminate|].
  assert (Htry : try_raises self (it_st h) e p') by (left; exact Hit).
  unfold __anext__. rewrite (next_raises self h e p' Htry).
  do 2 eexists. split; [reflexivity|]. cbn [snd].
  rewrite close_then_raise_it_st, close_then_raise_items. split; reflexivity.
Qed.

(** C8, amended.  The adapter keeps no record of a past end or failure;
    each pull asks the producer again.  When the producer is in a state from
    which it never returns an item again (every later pull of it raises),
    every pull on the adapter raises, whatever their number, and no item
    reaches the caller. *)
Theorem no_item_once_producer_is_finished
    {P C Raw Mapped : Type} (self : AsyncMappingIterator P C Raw Mapped)
    (fuel n : nat) (h : heap P C Mapped) :
  (forall k, is_Raise (fst (iterator self (after_pulls (iterator self) k (it_st h)))) = true) ->
  exists rs h',
    pulls self fuel n h = Some (rs, h') /\
    length rs = n /\
    Forall (fun r => is_Raise r = true) rs /\
    items_of (trace h') = items_of (trace h).
Proof.
  revert h. induction n as [|n IH]; intros h Hfin.
  - exists [], h. cbn. repeat split; auto.
  - destruct (anext_producer_raises self fuel h (Hfin 0)) as (e' & h1 & Hpull & Hit & Hitems).
    destruct (IH h1) as (rs & h' & Hrest & Hlen & Hall & Hitems').
    { intros k. rewrite Hit. apply (Hfin (S k)). }
    exists (Raise e' :: rs), h'. cbn [pulls]. rewrite Hpull, Hrest.
    split; [reflexivity|]. split; [cbn; lia|].
    split; [constructor; auto|]. congruence.
Qed.

(** A finished scripted producer stays finished. *)
Lemma script_finished {A : Type} (k : nat) :
  after_pulls (@script_anext A) k [] = [].
Proof. induction k as [|k IH]; cbn; auto. Qed.

(** A run of the amended C8: three pulls on an adapter whose producer is
    finished. *)
Lemma no_item_once_producer_is_finished_witness :
  exists rs h',
    pulls (chunks (Some counting_close)) 0 3 (fresh []) = Some (rs, h') /\
    length rs = 3 /\
    Forall (fun r => is_Raise r = true) rs /\
    items_of (trace h') = items_of [].
Proof.
  apply (no_item_once_producer_is_finished (chunks (Some counting_close)) 0 3 (fresh [])).
  intros k. cbn [chunks iterator fresh it_st]. rewrite script_finished. reflexivity.
Defined.

(** ** The end of the sequence *)

(** [StopAsyncIteration] is an instance of [Exception], so the clause
    [except Exception] of [next] handles the end of the sequence like a
    failure: for a producer that returns [xs] and then ends, with a close
    action [c] that returns, the caller receives the mapped values that
    [skip_none] lets through, then [close] is invoked once (one [EvClose]
    after the items, the state behind [close] stepped by one call of [c]),
    and the iteration ends with [StopAsyncIteration]. *)
Lemma end_of_sequence_invokes_close
    {P C Raw Mapped : Type} (self : AsyncMappingIterator P C Raw Mapped)
    (c : Callable C) (f : Raw -> option Mapped) (xs : list Raw)
    (p' : P) (h : heap P C Mapped) (fuel : nat) :
  emits (iterator self) (it_st h) xs StopAsyncIteration p' ->
  Forall (fun x => mapper self x = Return (f x)) xs ->
  close self = Some c ->
  fst (call c (cl_st h)) = Return tt ->
  length xs + 2 <= fuel ->
  async_for self fuel h =
    Some (delivered (skip_none self) (map f xs), StopAsyncIteration,
          {| it_st := p';
             cl_st := snd (call c (cl_st h));
             trace := trace h ++ map EvItem (delivered (skip_none self) (map f xs))
                              ++ [EvClose] |}).
Proof.
  intros Hem Hmap Hc Hcall Hfuel.
  rewrite (async_for_emits self f xs _ p' h fuel Hem Hmap Hfuel).
  rewrite (close_then_raise_returns self c StopAsyncIteration
             (at_raise h p' (delivered (skip_none self) (map f xs))) eq_refl Hc Hcall).
  cbn [fst snd at_raise it_st cl_st trace].
  rewrite <- app_assoc. reflexivity.
Qed.

(** C2 on the code.  The producer returns ["He"], ["llo"] and ends
    normally; the mapper is the default one, [skip_none] is on and a close
    action is set.  The caller receives both chunks and the end of the
    sequence, and [close] has been invoked once, where the claim has no
    invocation. *)
Theorem close_runs_on_normal_exhaustion :
  async_for (chunks (Some counting_close)) 4 (fresh [Return (Some "He"); Return (Some "llo")]) =
    Some ([Some "He"; Some "llo"], StopAsyncIteration,
          {| it_st := []; cl_st := 1;
             trace := [EvItem (Some "He"); EvItem (Some "llo"); EvClose] |}) /\
  close_count [EvItem (Some "He"); EvItem (Some "llo"); EvClose] = 1.
Proof. split; reflexivity. Qed.

(** When no close action is set, or the one that is set returns whenever it
    is invoked, a producer that returns [xs] and ends, with a mapper that
    never returns [None] on them, gives the caller the mapped items in
    order and then the end of the sequence. *)
Lemma all_items_then_end
    {P C Raw Mapped : Type} (self : AsyncMappingIterator P C Raw Mapped)
    (f : Raw -> option Mapped) (xs : list Raw) (p' : P) (h : heap P C Mapped) (fuel : nat) :
  emits (iterator self) (it_st h) xs StopAsyncIteration p' ->
  Forall (fun x => mapper self x = Return (f x)) xs ->
  Forall (fun m => m <> None) (map f xs) ->
  (forall c, close self = Some c -> fst (call c (cl_st h)) = Return tt) ->
  length xs + 2 <= fuel ->
  exists h',
    async_for self fuel h = Some (map f xs, StopAsyncIteration, h') /\
    items_of (trace h') = items_of (trace h) ++ map f xs.
Proof.
  intros Hem Hmap Hsome Hclose Hfuel.
  assert (Hdel : delivered (skip_none self) (map f xs) = map f xs).
  { unfold delivered. destruct (skip_none self); [|reflexivity].
    apply filter_not_None_id, Hsome. }
  rewrite (async_for_emits self f xs _ p' h fuel Hem Hmap Hfuel), Hdel.
  destruct (close self) as [c|] eqn:Hc.
  - rewrite (close_then_raise_returns self c StopAsyncIteration
               (at_raise h p' (map f xs)) eq_refl Hc (Hclose c eq_refl)).
    eexists. split; [reflexivity|]. cbn [snd at_raise trace].
    rewrite !items_of_app, items_of_items. cbn. rewrite app_nil_r. reflexivity.
  - rewrite (close_then_raise_no_close self _ _ Hc).
    eexists. split; [reflexivity|]. cbn [snd at_raise trace].
    rewrite items_of_app, items_of_items. reflexivity.
Qed.

(** C6 on the code.  The producer returns ["He"], ["llo"] and ends; the
    mapper never returns [None].  With a close action that raises exception
    500 the caller receives both chunks in order, and then exception 500
    where the claim has the end of the sequence: the end is handled by the
    [except] clause, which invokes [close]. *)
Theorem close_failure_hides_end_of_sequence :
  async_for (chunks (Some (failing_close (ExceptionObj 500)))) 4
    (fresh [Return (Some "He"); Return (Some "llo")]) =
    Some ([Some "He"; Some "llo"], ExceptionObj 500,
          {| it_st := []; cl_st := 1;
             trace := [EvItem (Some "He"); EvItem (Some "llo"); EvClose] |}).
Proof. reflexivity. Qed.

(** When no close action is set, or the one that is set returns whenever it
    is invoked, an adapter whose producer is exhausted and stays so signals
    the end of the sequence at every pull. *)
Lemma exhausted_stays_exhausted
    {P C Raw Mapped : Type} (self : AsyncMappingIterator P C Raw Mapped)
    (fuel n : nat) (h : heap P C Mapped) :
  (forall k, fst (iterator self (after_pulls (iterator self) k (it_st h))) =
             Raise StopAsyncIteration) ->
  (forall c s, close self = Some c -> fst (call c s) = Return tt) ->
  exists h',
    pulls self fuel n h = Some (repeat (Raise StopAsyncIteration) n, h').
Proof.
  revert h. induction n as [|n IH]; intros h Hend Hclose.
  - exists h. reflexivity.
  - pose proof (Hend 0) as H0. cbn [after_pulls] in H0.
    destruct (iterator self (it_st h)) as [r p'] eqn:Hit. cbn [fst] in H0. subst r.
    assert (Htry : try_raises self (it_st h) StopAsyncIteration p') by (left; exact Hit).
    pose proof (next_raises self h _ p' Htry) as Hnext.
    assert (Hctr : exists h1,
               close_then_raise self StopAsyncIteration
                 {| it_st := p'; cl_st := cl_st h; trace := trace h |} =
                 (StopAsyncIteration, h1) /\ it_st h1 = p').
    { destruct (close self) as [c|] eqn:Hc.
      - rewrite (close_then_raise_returns self c StopAsyncIteration
                   {| it_st := p'; cl_st := cl_st h; trace := trace h |}
                   eq_refl Hc (Hclose c (cl_st h) eq_refl)).
        eexists. split; reflexivity.
      - rewrite (close_then_raise_no_close self _ _ Hc). eexists. split; reflexivity. }
    destruct Hctr as (h1 & Hctr & Hp'). rewrite Hctr in Hnext. cbn [fst snd] in Hnext.
    destruct (IH h1) as (h' & Hrest).
    { intros k. rewrite Hp'. specialize (Hend (S k)). cbn [after_pulls] in Hend.
      rewrite Hit in Hend. exact Hend. }
    { exact Hclose. }
    exists h'. cbn [pulls repeat]. unfold __anext__. rewrite Hnext, Hrest. reflexivity.
Qed.

(** C7 on the code.  The producer is exhausted and stays so; the close
    action releases a resource when first invoked and raises exception 409
    when invoked again.  The first pull after exhaustion signals the end of
    the sequence; the next pulls raise exception 409 where the claim has the
    end of the sequence again: each of them runs the [except] clause, which
    invokes [close]. *)
Theorem pull_after_exhaustion_raises_close_failure :
  pulls (chunks (Some (close_once (ExceptionObj 409)))) 0 3 (fresh []) =
    Some ([Raise StopAsyncIteration; Raise (ExceptionObj 409); Raise (ExceptionObj 409)],
          {| it_st := []; cl_st := 3; trace := [EvClose; EvClose; EvClose] |}).
Proof. reflexivity. Qed.

(** ** OpenAIModel *)

(** C9.  Whatever the initialiser of the base class does with the instance,
    once [OpenAIModel.__init__] has returned, the attribute [ready] of the
    instance is [True]; nothing else has to run before. *)
Theorem OpenAIModel_ready_after_init
    (BaseKServeModel_init : string -> gmap string pyval -> result (gmap string pyval))
    (name : string) (self self' : gmap string pyval) :
  OpenAIModel_init BaseKServeModel_init name self = Return self' ->
  ready self' = Some (PyBool true).
Proof.
  unfold OpenAIModel_init, ready.
  destruct (BaseKServeModel_init name self) as [self1|e]; [|discriminate].
  intros [= <-]. apply lookup_insert_eq.
Qed.

(** A run of C9: a base initialiser that starts the model as not ready. *)
Lemma OpenAIModel_ready_after_init_witness :
  ready (<["ready" := PyBool true]>
           (<["ready" := PyBool false]> (<["name" := PyStr "gpt"]> ∅))) =
    Some (PyBool true).
Proof.
  apply (OpenAIModel_ready_after_init sample_base_init "gpt" ∅).
  reflexivity.
Defined.

(** * Further properties of the adapter *)

(** ** Single pulls *)

Section MorePullFacts.
Context {P C Raw Mapped : Type}.
Variable self : AsyncMappingIterator P C Raw Mapped.

(** A pull that skips the items [xs] and then gets an item that the mapper
    maps to a value to hand over. *)
Lemma anext_yields (xs : list Raw) (q q' : P) (x : Raw) (m : option Mapped)
    (h : heap P C Mapped) (fuel : nat) :
  skips self (it_st h) xs q ->
  xs = [] \/ skip_none self = true ->
  iterator self q = (Return x, q') ->
  mapper self x = Return m ->
  m <> None \/ skip_none self = false ->
  length xs <= fuel ->
  __anext__ self fuel h =
    Some (Return m, {| it_st := q'; cl_st := cl_st h; trace := trace h ++ [EvItem m] |}).
Proof.
  intros Hsk Hxs Hit Hmap Hm Hfuel.
  pose proof (next_returns self {| it_st := q; cl_st := cl_st h; trace := trace h |}
                x q' m Hit Hmap) as Hnext.
  cbn [it_st cl_st trace] in Hnext.
  rewrite (anext_after_skips self xs q fuel h _ _ Hsk Hxs Hnext); [reflexivity| |exact Hfuel].
  destruct Hm as [Hm|Hm]; [left; congruence|right; exact Hm].
Qed.

(** A pull that skips the items [xs] and whose [try] block then raises [e],
    with no close action to run for [e]. *)
Lemma anext_raises_unclosed (xs : list Raw) (q q' : P) (e : exn)
    (h : heap P C Mapped) (fuel : nat) :
  skips self (it_st h) xs q ->
  xs = [] \/ skip_none self = true ->
  try_raises self q e q' ->
  isinstance_Exception e = false \/ close self = None ->
  length xs <= fuel ->
  __anext__ self fuel h =
    Some (Raise e, {| it_st := q'; cl_st := cl_st h; trace := trace h |}).
Proof.
  intros Hsk Hxs Htry Hno Hfuel.
  pose proof (next_raises self {| it_st := q; cl_st := cl_st h; trace := trace h |}
                e q' Htry) as Hnext.
  cbn [it_st cl_st trace] in Hnext.
  assert (Hctr : close_then_raise self e {| it_st := q'; cl_st := cl_st h; trace := trace h |} =
                 (e, {| it_st := q'; cl_st := cl_st h; trace := trace h |})).
  { destruct Hno as [He|Hc].
    - apply close_then_raise_BaseException, He.
    - apply close_then_raise_no_close, Hc. }
  rewrite Hctr in Hnext. cbn [fst snd] in Hnext.
  rewrite (anext_after_skips self xs q fuel h _ _ Hsk Hxs Hnext); [reflexivity| |exact Hfuel].
  left. discriminate.
Qed.

(** The loop [while mapped_item is None] cannot end on [None]. *)
Lemma while_is_None_not_None (fuel : nat) (m v : option Mapped) (h h' : heap P C Mapped) :
  while_is_None self fuel m h = Some (Return v, h') -> v <> None.
Proof.
  revert m h. induction fuel as [|fuel IH]; intros m h.
  - destruct m as [w|]; [|discriminate]. cbn. intros [= <- <-]. discriminate.
  - destruct m as [w|].
    + cbn. intros [= <- <-]. discriminate.
    + rewrite while_is_None_step.
      destruct (next self h) as [[m'|e] h1]; [apply IH|discriminate].
Qed.

(** The loop does not end while the producer goes on returning items that
    the mapper maps to [None]. *)
Lemma while_is_None_endless (fuel : nat) (h : heap P C Mapped) :
  (forall k, exists x,
      fst (iterator self (after_pulls (iterator self) k (it_st h))) = Return x /\
      mapper self x = Return None) ->
  while_is_None self fuel None h = None.
Proof.
  revert h. induction fuel as [|fuel IH]; intros h Hall; [reflexivity|].
  rewrite while_is_None_step.
  destruct (Hall 0) as (x & Hit & Hmap). cbn [after_pulls] in Hit.
  rewrite (next_returns self h x _ None (iterator_step self _ _ Hit) Hmap).
  apply IH. intros k. cbn [it_st]. apply (Hall (S k)).
Qed.

End MorePullFacts.

(** X1.  A pull whose [try] block raises [E] (from the producer or from the
    mapper, possibly after skipped items) when there is nothing to run for
    it: [E] is outside the class [Exception] (a cancellation), whatever
    close action is set, or no close action is set.  The caller gets [E]
    itself, [close] is not invoked and its state is untouched. *)
Theorem failure_without_close_invocation
    {P C Raw Mapped : Type} (self : AsyncMappingIterator P C Raw Mapped)
    (xs : list Raw) (q q' : P) (E : exn) (h : heap P C Mapped) (fuel : nat) :
  skips self (it_st h) xs q ->
  xs = [] \/ skip_none self = true ->
  try_raises self q E q' ->
  isinstance_Exception E = false \/ close self = None ->
  length xs <= fuel ->
  exists h',
    __anext__ self fuel h = Some (Raise E, h') /\
    it_st h' = q' /\
    cl_st h' = cl_st h /\
    trace h' = trace h.
Proof.
  intros Hsk Hxs Htry Hno Hfuel.
  rewrite (anext_raises_unclosed self xs q q' E h fuel Hsk Hxs Htry Hno Hfuel).
  eexists. repeat split; reflexivity.
Qed.

(** A run of X1: the producer is cancelled although a close action is set. *)
Lemma failure_without_close_invocation_witness :
  exists h',
    __anext__ (chunks (Some counting_close)) 0 (fresh [Raise (BaseExceptionObj 2)]) =
      Some (Raise (BaseExceptionObj 2), h') /\
    it_st h' = [] /\
    cl_st h' = 0 /\
    trace h' = [].
Proof.
  apply (failure_without_close_invocation (chunks (Some counting_close))
           [] [Raise (BaseExceptionObj 2)] [] (BaseExceptionObj 2)
           (fresh [Raise (BaseExceptionObj 2)]) 0).
  - reflexivity.
  - left. reflexivity.
  - left. reflexivity.
  - left. reflexivity.
  - cbn. lia.
Defined.

(** X2.  A pull that hands over a value reads the producer no further than
    the item that value comes from: after the skipped items [xs] and the
    item [x], the producer is in the state that returning [x] left it in.
    The close action is not touched and the value is the one thing added to
    the log.  With [skip_none] off the value may be [None]. *)
Theorem pull_reads_no_further
    {P C Raw Mapped : Type} (self : AsyncMappingIterator P C Raw Mapped)
    (xs : list Raw) (q q' : P) (x : Raw) (m : option Mapped)
    (h : heap P C Mapped) (fuel : nat) :
  skips self (it_st h) xs q ->
  xs = [] \/ skip_none self = true ->
  iterator self q = (Return x, q') ->
  mapper self x = Return m ->
  m <> None \/ skip_none self = false ->
  length xs <= fuel ->
  exists h',
    __anext__ self fuel h = Some (Return m, h') /\
    it_st h' = q' /\
    cl_st h' = cl_st h /\
    trace h' = trace h ++ [EvItem m].
Proof.
  intros Hsk Hxs Hit Hmap Hm Hfuel.
  rewrite (anext_yields self xs q q' x m h fuel Hsk Hxs Hit Hmap Hm Hfuel).
  eexists. repeat split; reflexivity.
Qed.

(** A run of X2: [None] is skipped, ["B"] is handed over, ["C"] is left in
    the producer. *)
Lemma pull_reads_no_further_witness :
  exists h',
    __anext__ (chunks (Some counting_close)) 1
      (fresh [Return None; Return (Some "B"); Return (Some "C")]) =
      Some (Return (Some "B"), h') /\
    it_st h' = [Return (Some "C")] /\
    cl_st h' = 0 /\
    trace h' = [] ++ [EvItem (Some "B")].
Proof.
  apply (pull_reads_no_further (chunks (Some counting_close))
           [None] [Return (Some "B"); Return (Some "C")] [Return (Some "C")]
           (Some "B") (Some "B")
           (fresh [Return None; Return (Some "B"); Return (Some "C")]) 1).
  - cbn. repeat split; reflexivity.
  - right. reflexivity.
  - reflexivity.
  - reflexivity.
  - left. discriminate.
  - cbn. lia.
Defined.

(** X3.  With [skip_none] on, no pull ever hands [None] to the caller,
    whatever the producer, the mapper and the close action do. *)
Theorem skip_none_never_returns_None
    {P C Raw Mapped : Type} (self : AsyncMappingIterator P C Raw Mapped)
    (fuel : nat) (h h' : heap P C Mapped) (v : option Mapped) :
  skip_none self = true ->
  __anext__ self fuel h = Some (Return v, h') ->
  v <> None.
Proof.
  intros Hskip. rewrite anext_skip by assumption.
  destruct (while_is_None self (S fuel) None h) as [[[w|e] h1]|] eqn:Hw;
    cbn [deliver]; [|discriminate|discriminate].
  intros [= <- <-]. exact (while_is_None_not_None self _ _ _ _ _ Hw).
Qed.

(** A run of X3. *)
Lemma skip_none_never_returns_None_witness : Some "B" <> None.
Proof.
  apply (skip_none_never_returns_None (chunks None) 1
           (fresh [Return None; Return (Some "B")])
           {| it_st := []; cl_st := 0; trace := [EvItem (Some "B")] |} (Some "B")).
  - reflexivity.
  - reflexivity.
Defined.

(** X4.  With [skip_none] on, a pull does not return as long as the
    producer goes on returning items that the mapper maps to [None]: no
    amount of fuel lets [__anext__], or an iteration that contains it, come
    back. *)
Theorem pull_never_returns_on_endless_None
    {P C Raw Mapped : Type} (self : AsyncMappingIterator P C Raw Mapped)
    (h : heap P C Mapped) (fuel : nat) :
  skip_none self = true ->
  (forall k, exists x,
      fst (iterator self (after_pulls (iterator self) k (it_st h))) = Return x /\
      mapper self x = Return None) ->
  __anext__ self fuel h = None /\ async_for self fuel h = None.
Proof.
  intros Hskip Hall.
  assert (Hpull : forall n, __anext__ self n h = None).
  { intros n. rewrite anext_skip by assumption.
    rewrite (while_is_None_endless self (S n) h Hall). reflexivity. }
  split; [apply Hpull|].
  destruct fuel as [|fuel]; [reflexivity|].
  cbn [async_for]. rewrite Hpull. reflexivity.
Qed.

(** A run of X4: a producer that returns 0 for ever, a mapper that maps
    everything to [None]. *)
Lemma pull_never_returns_on_endless_None_witness :
  __anext__ (AsyncMappingIterator_init (Mapped := nat) (endless 0) none_mapper None None)
    1000 {| it_st := tt; cl_st := tt; trace := [] |} = None /\
  async_for (AsyncMappingIterator_init (Mapped := nat) (endless 0) none_mapper None None)
    1000 {| it_st := tt; cl_st := tt; trace := [] |} = None.
Proof.
  apply (pull_never_returns_on_endless_None
           (AsyncMappingIterator_init (Mapped := nat) (endless 0) none_mapper None None)
           {| it_st := tt; cl_st := tt; trace := [] |} 1000).
  - reflexivity.
  - intros k. exists 0. split; reflexivity.
Defined.

(** ** Iterations *)

(** X5.  With [skip_none] off the adapter maps and nothing else: for a
    producer that returns the items [xs] and then stops, and a mapper that
    returns [f x] on every item [x], the caller receives every mapped value
    in order, the [None]s too, one value per item, and the producer has been
    read to its end. *)
Theorem skip_none_off_hands_over_every_value
    {P C Raw Mapped : Type} (self : AsyncMappingIterator P C Raw Mapped)
    (f : Raw -> option Mapped) (xs : list Raw) (e : exn) (p' : P)
    (h : heap P C Mapped) (fuel : nat) :
  skip_none self = false ->
  emits (iterator self) (it_st h) xs e p' ->
  Forall (fun x => mapper self x = Return (f x)) xs ->
  length xs < fuel ->
  exists e' h',
    async_for self fuel h = Some (map f xs, e', h') /\
    length (map f xs) = length xs /\
    items_of (trace h') = items_of (trace h) ++ map f xs /\
    it_st h' = p'.
Proof.
  intros Hskip Hem Hmap Hfuel.
  rewrite (async_for_emits_noskip self f xs e p' Hskip h fuel Hem Hmap Hfuel).
  do 2 eexists. split; [reflexivity|].
  split; [apply length_map|]. cbn [snd].
  rewrite close_then_raise_items, close_then_raise_it_st. unfold at_raise.
  cbn [trace it_st]. rewrite items_of_app, items_of_items. split; reflexivity.
Qed.

(** A run of X5: ["A"], [None], ["B"] with [skip_none=False]. *)
Lemma skip_none_off_hands_over_every_value_witness :
  exists e' h',
    async_for
      (AsyncMappingIterator_init (C := nat) script_anext default_mapper (Some false) None) 4
      (fresh [Return (Some "A"); Return None; Return (Some "B")]) =
      Some (map (fun x : option string => x) [Some "A"; None; Some "B"], e', h') /\
    length (map (fun x : option string => x) [Some "A"; None; Some "B"]) =
      length [Some "A"; None; Some "B"] /\
    items_of (trace h') =
      items_of [] ++ map (fun x : option string => x) [Some "A"; None; Some "B"] /\
    it_st h' = [].
Proof.
  apply (skip_none_off_hands_over_every_value
           (AsyncMappingIterator_init (C := nat) script_anext default_mapper (Some false) None)
           (fun x => x) [Some "A"; None; Some "B"] StopAsyncIteration []
           (fresh [Return (Some "A"); Return None; Return (Some "B")]) 4).
  - reflexivity.
  - cbn. repeat split; reflexivity.
  - repeat constructor.
  - cbn. lia.
Defined.

(** X6.  A failure of the mapper does not end the stream.  When the mapper
    raises on the item [x] and returns a value on the next item [y], the
    pull for [x] raises (what the [except] clause makes of the failure) and
    the pull after it hands over the value for [y]; [x] is lost. *)
Theorem stream_goes_on_after_mapper_failure
    {P C Raw Mapped : Type} (self : AsyncMappingIterator P C Raw Mapped)
    (x y : Raw) (p1 p2 : P) (E : exn) (v : Mapped) (h : heap P C Mapped) (fuel : nat) :
  iterator self (it_st h) = (Return x, p1) ->
  mapper self x = Raise E ->
  iterator self p1 = (Return y, p2) ->
  mapper self y = Return (Some v) ->
  exists e1 h',
    pulls self fuel 2 h = Some ([Raise e1; Return (Some v)], h') /\
    e1 = fst (close_then_raise self E {| it_st := p1; cl_st := cl_st h; trace := trace h |}) /\
    it_st h' = p2 /\
    items_of (trace h') = items_of (trace h) ++ [Some v].
Proof.
  intros Hx HE Hy Hv.
  assert (Htry : try_raises self (it_st h) E p1) by (right; exists x; auto).
  pose proof (next_raises self h E p1 Htry) as Hnext.
  set (h1 := snd (close_then_raise self E {| it_st := p1; cl_st := cl_st h; trace := trace h |}))
    in *.
  assert (Hp1 : it_st h1 = p1)
    by exact (close_then_raise_it_st self E
                {| it_st := p1; cl_st := cl_st h; trace := trace h |}).
  assert (Hitems : items_of (trace h1) = items_of (trace h))
    by exact (close_then_raise_items self E
                {| it_st := p1; cl_st := cl_st h; trace := trace h |}).
  assert (Hfirst : __anext__ self fuel h =
                   Some (Raise (fst (close_then_raise self E
                            {| it_st := p1; cl_st := cl_st h; trace := trace h |})), h1)).
  { unfold __anext__. rewrite Hnext. reflexivity. }
  assert (Hsecond : __anext__ self fuel h1 =
                    Some (Return (Some v),
                          {| it_st := p2; cl_st := cl_st h1;
                             trace := trace h1 ++ [EvItem (Some v)] |})).
  { apply (anext_yields self [] (it_st h1) p2 y (Some v) h1 fuel).
    - reflexivity.
    - left; reflexivity.
    - rewrite Hp1. exact Hy.
    - exact Hv.
    - left; discriminate.
    - cbn; lia. }
  do 2 eexists. cbn [pulls]. rewrite Hfirst, Hsecond.
  split; [reflexivity|]. split; [reflexivity|]. split; [reflexivity|].
  cbn [trace]. rewrite items_of_app, Hitems. reflexivity.
Qed.

(** A run of X6: the mapper raises exception 7 on item 0 and returns the
    other items unchanged. *)
Lemma stream_goes_on_after_mapper_failure_witness :
  exists e1 h',
    pulls
      {| iterator := script_anext;
         mapper := fun n : nat => match n with O => Raise (ExceptionObj 7) | S _ => Return (Some n) end;
         skip_none := true;
         close := Some counting_close |}
      0 2 (fresh [Return 0; Return 1]) = Some ([Raise e1; Return (Some 1)], h') /\
    e1 = ExceptionObj 7 /\
    it_st h' = [] /\
    items_of (trace h') = items_of [] ++ [Some 1].
Proof.
  apply (stream_goes_on_after_mapper_failure
           {| iterator := script_anext;
              mapper := fun n : nat => match n with O => Raise (ExceptionObj 7) | S _ => Return (Some n) end;
              skip_none := true;
              close := Some counting_close |}
           0 1 [Return 1] [] (ExceptionObj 7) 1 (fresh [Return 0; Return 1]) 0);
    reflexivity.
Defined.

(** X7.  In an iteration [async for] the close action comes last.  Whatever
    the producer, the mapper and the close action do, what the iteration
    adds to the log is the items the caller received, in order, followed by
    at most one invocation of [close]: no item is handed over once [close]
    has run. *)
Theorem async_for_close_comes_last
    {P C Raw Mapped : Type} (self : AsyncMappingIterator P C Raw Mapped)
    (fuel : nat) (h h' : heap P C Mapped) (ys : list (option Mapped)) (e : exn) :
  async_for self fuel h = Some (ys, e, h') ->
  exists tail,
    trace h' = trace h ++ map EvItem ys ++ tail /\
    (tail = [] \/ tail = [EvClose]).
Proof.
  revert h h' ys. induction fuel as [|fuel IH]; intros h h' ys; [discriminate|].
  cbn [async_for].
  destruct (__anext__ self fuel h) as [[[v|e1] h1]|] eqn:Hpull; [| |discriminate].
  - destruct (async_for self fuel h1) as [[[vs e2] h2]|] eqn:Hrest; [|discriminate].
    intros [= <- <- <-]. destruct (IH _ _ _ Hrest) as (tail & Ht & Htail).
    pose proof (anext_trace self _ _ _ _ Hpull) as Hv. cbn in Hv.
    exists tail. split; [|exact Htail].
    rewrite Ht, Hv. cbn [map]. rewrite <- app_assoc. reflexivity.
  - intros [= <- <- <-].
    destruct (anext_trace self _ _ _ _ Hpull) as [Ht|Ht].
    + exists []. split; [|left; reflexivity]. cbn. rewrite app_nil_r. exact Ht.
    + exists [EvClose]. split; [|right; reflexivity]. exact Ht.
Qed.

(** A run of X7: two chunks, then the end of the sequence. *)
Lemma async_for_close_comes_last_witness :
  exists tail,
    [EvItem (Some "He"); EvItem (Some "llo"); EvClose] =
      [] ++ map EvItem [Some "He"; Some "llo"] ++ tail /\
    (tail = [] \/ tail = [EvClose]).
Proof.
  apply (async_for_close_comes_last (chunks (Some counting_close)) 4
           (fresh [Return (Some "He"); Return (Some "llo")])
           {| it_st := []; cl_st := 1;
              trace := [EvItem (Some "He"); EvItem (Some "llo"); EvClose] |}
           [Some "He"; Some "llo"] StopAsyncIteration).
  reflexivity.
Defined.

(** X8.  [AsyncMappingIterator(iterator)] with every optional argument left
    out filters the [None]s and does nothing else: for a producer that
    returns the items [xs] and then raises [e], the caller receives the
    items of [xs] other than [None], unchanged and in order, and then [e]
    itself; nothing is invoked besides the producer. *)
Theorem default_adapter_drops_None
    {P C A : Type} (it : P -> result (option A) * P)
    (xs : list (option A)) (e : exn) (p' : P) (h : heap P C A) (fuel : nat) :
  emits it (it_st h) xs e p' ->
  length xs + 2 <= fuel ->
  async_for (__aiter__ (AsyncMappingIterator_of it)) fuel h =
    Some (map Some (omap (fun x => x) xs), e,
          {| it_st := p'; cl_st := cl_st h;
             trace := trace h ++ map EvItem (map Some (omap (fun x => x) xs)) |}).
Proof.
  intros Hem Hfuel. unfold __aiter__.
  assert (Hmap : Forall (fun x => mapper (AsyncMappingIterator_of (C := C) it) x =
                                  Return ((fun x => x) x)) xs).
  { apply Forall_forall. intros x _. reflexivity. }
  rewrite (async_for_emits (AsyncMappingIterator_of it) (fun x => x) xs e p' h fuel
             Hem Hmap Hfuel).
  rewrite close_then_raise_no_close by reflexivity.
  cbn [fst snd skip_none AsyncMappingIterator_of AsyncMappingIterator_init delivered].
  rewrite filter_not_None_omap. reflexivity.
Qed.

(** A run of X8: the producer returns ["A"], [None], ["B"] and then fails
    with exception 1. *)
Lemma default_adapter_drops_None_witness :
  async_for (__aiter__ (AsyncMappingIterator_of script_anext)) 5
    (fresh [Return (Some "A"); Return None; Return (Some "B"); Raise (ExceptionObj 1)]) =
    Some (map Some (omap (fun x => x) [Some "A"; None; Some "B"]), ExceptionObj 1,
          {| it_st := []; cl_st := 0;
             trace := [] ++ map EvItem (map Some (omap (fun x => x) [Some "A"; None; Some "B"])) |}).
Proof.
  apply (default_adapter_drops_None script_anext [Some "A"; None; Some "B"]
           (ExceptionObj 1) []
           (fresh [Return (Some "A"); Return None; Return (Some "B"); Raise (ExceptionObj 1)]) 5).
  - cbn. repeat split; reflexivity.
  - cbn. lia.
Defined.

(** ** OpenAIModel *)

(** X9.  [OpenAIModel.__init__] adds nothing of its own besides [ready]:
    when the initialiser of the base class returns, every other attribute
    of the instance is as that initialiser left it, and when it raises,
    [__init__] raises the same exception and [ready] is never set. *)
Theorem OpenAIModel_init_sets_only_ready
    (BaseKServeModel_init : string -> gmap string pyval -> result (gmap string pyval))
    (name : string) (self : gmap string pyval) :
  match BaseKServeModel_init name self with
  | Return base =>
      exists self',
        OpenAIModel_init BaseKServeModel_init name self = Return self' /\
        forall attr : string, attr <> "ready" -> self' !! attr = base !! attr
  | Raise e => OpenAIModel_init BaseKServeModel_init name self = Raise e
  end.
Proof.
  unfold OpenAIModel_init.
  destruct (BaseKServeModel_init name self) as [base|e]; [|reflexivity].
  eexists. split; [reflexivity|].
  intros attr Hne. apply lookup_insert_ne. congruence.
Qed.

(** ** Pulling on after a failure *)

(** When a close action is set, the [except] clause invokes it for every
    exception of class [Exception]; the exception that leaves the clause is
    the one caught when the action returns, and the action's own when it
    raises. *)
Lemma close_then_raise_invokes
    {P C Raw Mapped : Type} (self : AsyncMappingIterator P C Raw Mapped)
    (c : Callable C) (e : exn) (h : heap P C Mapped) :
  isinstance_Exception e = true ->
  close self = Some c ->
  close_then_raise self e h =
    (match fst (call c (cl_st h)) with Return _ => e | Raise ce => ce end,
     {| it_st := it_st h; cl_st := snd (call c (cl_st h)); trace := trace h ++ [EvClose] |}).
Proof.
  intros He Hc. unfold close_then_raise. rewrite He, Hc.
  destruct (fst (call c (cl_st h))); reflexivity.
Qed.

(** X10.  The adapter does not remember that [close] has run.  With a close
    action [c] set and a producer that raises an exception of class
    [Exception] at every pull from now on (a failed or finished producer that
    is pulled again), each of [n] further pulls asks the producer once,
    invokes [close] once more and raises: after them the state behind
    [close] is what [n] calls of [c] make of it and the log has [n] more
    [EvClose].  The [k]-th pull raises the producer's exception when that
    call of [c] returns, and the exception of [c] when it raises. *)
Theorem close_runs_again_at_every_failing_pull
    {P C Raw Mapped : Type} (self : AsyncMappingIterator P C Raw Mapped)
    (c : Callable C) (fuel n : nat) (h : heap P C Mapped) :
  close self = Some c ->
  (forall k, exists e,
      fst (iterator self (after_pulls (iterator self) k (it_st h))) = Raise e /\
      isinstance_Exception e = true) ->
  exists rs,
    pulls self fuel n h =
      Some (rs, {| it_st := after_pulls (iterator self) n (it_st h);
                   cl_st := invoked c n (cl_st h);
                   trace := trace h ++ repeat EvClose n |}) /\
    length rs = n /\
    forall k e,
      k < n ->
      fst (iterator self (after_pulls (iterator self) k (it_st h))) = Raise e ->
      rs !! k =
        Some (Raise (match fst (call c (invoked c k (cl_st h))) with
                     | Return _ => e
                     | Raise ce => ce
                     end)).
Proof.
  intros Hc. revert h. induction n as [|n IH]; intros h Hall.
  - exists []. cbn. rewrite app_nil_r, heap_eta.
    split; [reflexivity|]. split; [reflexivity|]. intros k e Hk. lia.
  - destruct (Hall 0) as (e0 & Hit & He). cbn [after_pulls] in Hit.
    destruct (iterator self (it_st h)) as [r p'] eqn:Hstep. cbn [fst] in Hit. subst r.
    assert (Htry : try_raises self (it_st h) e0 p') by (left; exact Hstep).
    pose proof (next_raises self h e0 p' Htry) as Hnext.
    rewrite (close_then_raise_invokes self c e0
               {| it_st := p'; cl_st := cl_st h; trace := trace h |} He Hc) in Hnext.
    cbn [fst snd it_st cl_st trace] in Hnext.
    set (h1 := {| it_st := p'; cl_st := snd (call c (cl_st h));
                  trace := trace h ++ [EvClose] |}) in *.
    destruct (IH h1) as (rs & Hrest & Hlen & Hnth).
    { intros k. specialize (Hall (S k)). cbn [after_pulls] in Hall.
      rewrite Hstep in Hall. exact Hall. }
    eexists. cbn [pulls]. unfold __anext__. rewrite Hnext, Hrest.
    cbn [h1 it_st cl_st trace after_pulls invoked repeat snd].
    rewrite Hstep. cbn [snd]. rewrite <- app_assoc.
    split; [reflexivity|]. split; [cbn; lia|].
    intros [|k] e Hk Hek.
    + cbn [after_pulls] in Hek. rewrite Hstep in Hek. cbn [fst] in Hek.
      injection Hek as <-. reflexivity.
    + cbn [after_pulls] in Hek. rewrite Hstep in Hek.
      cbn [lookup list_lookup invoked].
      apply (Hnth k e); [lia|exact Hek].
Qed.

(** A run of X10: three pulls on a finished producer with a close action
    that raises exception 409 from its second call on. *)
Lemma close_runs_again_at_every_failing_pull_witness :
  exists rs,
    pulls (chunks (Some (close_once (ExceptionObj 409)))) 0 3 (fresh []) =
      Some (rs, {| it_st := after_pulls script_anext 3 [];
                   cl_st := invoked (close_once (ExceptionObj 409)) 3 0;
                   trace := [] ++ repeat EvClose 3 |}) /\
    length rs = 3 /\
    forall k e,
      k < 3 ->
      fst (script_anext (after_pulls script_anext k (@nil (result (option string))))) = Raise e ->
      rs !! k =
        Some (Raise (match fst (call (close_once (ExceptionObj 409))
                                  (invoked (close_once (ExceptionObj 409)) k 0)) with
                     | Return _ => e
                     | Raise ce => ce
                     end)).
Proof.
  apply (close_runs_again_at_every_failing_pull
           (chunks (Some (close_once (ExceptionObj 409))))
           (close_once (ExceptionObj 409)) 0 3 (fresh [])).
  - reflexivity.
  - intros k. exists StopAsyncIteration.
    cbn [chunks iterator fresh it_st]. rewrite script_finished. split; reflexivity.
Defined.

(** ** Runs of the properties around the end of the sequence *)

(** A run of [end_of_sequence_invokes_close]: two chunks and a close action
    that counts. *)
Lemma end_of_sequence_invokes_close_witness :
  async_for (chunks (Some counting_close)) 4
    (fresh [Return (Some "He"); Return (Some "llo")]) =
    Some ([Some "He"; Some "llo"], StopAsyncIteration,
          {| it_st := []; cl_st := 1;
             trace := [EvItem (Some "He"); EvItem (Some "llo"); EvClose] |}).
Proof.
  apply (end_of_sequence_invokes_close (chunks (Some counting_close)) counting_close
           (fun x => x) [Some "He"; Some "llo"] []
           (fresh [Return (Some "He"); Return (Some "llo")]) 4).
  - cbn. repeat split; reflexivity.
  - repeat constructor.
  - reflexivity.
  - reflexivity.
  - cbn. lia.
Defined.

(** A run of [all_items_then_end]: two chunks and no close action. *)
Lemma all_items_then_end_witness :
  exists h',
    async_for (chunks None) 4 (fresh [Return (Some "He"); Return (Some "llo")]) =
      Some (map (fun x : option string => x) [Some "He"; Some "llo"], StopAsyncIteration, h') /\
    items_of (trace h') =
      items_of [] ++ map (fun x : option string => x) [Some "He"; Some "llo"].
Proof.
  apply (all_items_then_end (chunks None) (fun x => x) [Some "He"; Some "llo"] []
           (fresh [Return (Some "He"); Return (Some "llo")]) 4).
  - cbn. repeat split; reflexivity.
  - repeat constructor.
  - repeat constructor; discriminate.
  - intros c Hc. discriminate Hc.
  - cbn. lia.
Defined.

(** A run of [exhausted_stays_exhausted]: three pulls on a finished producer
    with a close action that returns. *)
Lemma exhausted_stays_exhausted_witness :
  exists h',
    pulls (chunks (Some counting_close)) 0 3 (fresh []) =
      Some (repeat (Raise StopAsyncIteration) 3, h').
Proof.
  apply (exhausted_stays_exhausted (chunks (Some counting_close)) 0 3 (fresh [])).
  - intros k. cbn [chunks iterator fresh it_st]. rewrite script_finished. reflexivity.
  - intros c s [= <-]. reflexivity.
Defined.
